(** * PrintEncrypted: a homomorphic test program over four encrypted vectors

    A shallow embedding of [src/PrintEncrypted.cpp].  The program is a
    single [main] which drives the HElib / NTL engine: it derives the level
    budget, builds a context and a key pair, draws random plaintext arrays,
    runs one fixed arithmetic program on ciphertexts and on plaintexts, and
    compares the decrypted results with the plaintext results.

    The engine (HElib, NTL, <cmath>) is not part of the repository; it is a
    parameter of the development (record [Engine]).  [main] is written in a
    small state monad that threads the process-wide pseudo-random generator,
    the text written to [cout] and a log of the engine calls. *)

From Stdlib Require Import ZArith Bool List String Lia.
From Stdlib Require Import Uint63 PrimFloat SpecFloat FloatOps.
From Stdlib Require Import DecimalString.
Import ListNotations.

Local Open Scope Z_scope.

(** ** The C++ type [long]

    [long] is the 64-bit two's-complement integer of the LP64 platforms the
    engine is built for.  A value is a [Z] in [[long_min, long_max]];
    arithmetic that leaves the range wraps around. *)

Module Long.

Definition bits : Z := 64.
Definition modulus : Z := 2 ^ bits.
Definition long_min : Z := - 2 ^ (bits - 1).
Definition long_max : Z := 2 ^ (bits - 1) - 1.

Definition in_range (z : Z) : Prop := long_min <= z <= long_max.

Definition in_rangeb (z : Z) : bool := (long_min <=? z) && (z <=? long_max).

(** Reduction of a mathematical integer to the [long] with the same
    residue modulo [2^64]. *)
Definition wrap (z : Z) : Z := (z - long_min) mod modulus + long_min.

Definition add (a b : Z) : Z := wrap (a + b).
Definition sub (a b : Z) : Z := wrap (a - b).
Definition mul (a b : Z) : Z := wrap (a * b).

(** [a / b] of C++: the quotient truncated towards zero. *)
Definition div (a b : Z) : Z := wrap (Z.quot a b).

End Long.

(** ** Conversions between [long] and [double] *)

(** [(double) z]: the nearest binary64 value. *)
Definition double_of_long (z : Z) : float :=
  if z =? Long.long_min
  then PrimFloat.opp (PrimFloat.mul 2%float (PrimFloat.of_uint63 (Uint63.of_Z (2 ^ 62))))
  else if z <? 0
  then PrimFloat.opp (PrimFloat.of_uint63 (Uint63.of_Z (- z)))
  else PrimFloat.of_uint63 (Uint63.of_Z z).

(** Initialisation of a [long] from a [double]: the fractional part is
    discarded.  A value that does not fit (or a NaN) leaves the result
    unspecified in C++; the x86-64 conversion instruction yields
    [long_min] there. *)
Definition long_of_double (x : float) : Z :=
  match Prim2SF x with
  | S754_zero _ => 0
  | S754_finite sg m e =>
      let a := Z.shiftl (Zpos m) e in
      let v := if sg then - a else a in
      if Long.in_rangeb v then v else Long.long_min
  | _ => Long.long_min
  end.

(** Decimal text of a [long], as [operator<<] writes it. *)
Definition show_long (z : Z) : string :=
  NilZero.string_of_int (Z.to_int z).

(** ** Command-line configuration (lines 19-80)

    The twelve options registered with [ArgMapping], with the defaults the
    source gives them.  [amap.parse] overwrites the fields named on the
    command line. *)

Module Opt.

Record config : Type := {
  gens : list Z;
  ords : list Z;
  seed : Z;
  R : Z;
  p : Z;
  r : Z;
  d : Z;
  c : Z;
  k : Z;
  L : Z;
  s : Z;
  chosen_m : Z
}.

Definition default : config :=
  {| gens := []; ords := []; seed := 0; R := 1; p := 2; r := 1; d := 1;
     c := 2; k := 80; L := 0; s := 0; chosen_m := 0 |}.

End Opt.

(** ** The engine

    Everything [main] calls.  A procedure that may read the process-wide
    pseudo-random generator of NTL takes its state [PRG] and returns the
    new one; the two procedures that end the process on an infeasible
    parameter set return an [option]. *)

Record Engine : Type := {
  PRG : Type;
  FHEcontext : Type;
  ZZX : Type;
  FHESecKey : Type;
  FHEPubKey : Type;
  EncryptedArray : Type;
  NewPlaintextArray : Type;
  Ctxt : Type;

  (* <cmath> and the engine's size constant *)
  log : float -> float;
  ceil : float -> float;
  FHE_p2Size : Z;

  (* NTL *)
  SetSeed : Z -> PRG;
  RandomBnd : Z -> PRG -> Z * PRG;

  (* parameters and context *)
  FindM : Z -> Z -> Z -> Z -> Z -> Z -> Z -> bool -> option Z;
  FHEcontext_new : Z -> Z -> Z -> list Z -> list Z -> PRG -> FHEcontext * PRG;
  buildModChain : FHEcontext -> Z -> Z -> PRG -> FHEcontext * PRG;
  makeIrredPoly : Z -> Z -> PRG -> option ZZX * PRG;
  zMStar_printout : FHEcontext -> string;
  securityLevel : FHEcontext -> float;
  show_double : float -> string;

  (* keys *)
  FHESecKey_new : FHEcontext -> FHESecKey;
  as_FHEPubKey : FHESecKey -> FHEPubKey;
  GenSecKey : FHESecKey -> Z -> PRG -> FHESecKey * PRG;
  addSome1DMatrices : FHESecKey -> PRG -> FHESecKey * PRG;

  (* plaintext arrays *)
  EncryptedArray_new : FHEcontext -> ZZX -> PRG -> EncryptedArray * PRG;
  size : EncryptedArray -> Z;
  NewPlaintextArray_new : EncryptedArray -> NewPlaintextArray;
  random : EncryptedArray -> NewPlaintextArray -> PRG -> NewPlaintextArray * PRG;
  encode : EncryptedArray -> NewPlaintextArray -> ZZX;
  mul : EncryptedArray -> NewPlaintextArray -> NewPlaintextArray -> NewPlaintextArray;
  add : EncryptedArray -> NewPlaintextArray -> NewPlaintextArray -> NewPlaintextArray;
  sub : EncryptedArray -> NewPlaintextArray -> NewPlaintextArray -> NewPlaintextArray;
  shift : EncryptedArray -> NewPlaintextArray -> Z -> NewPlaintextArray;
  rotate : EncryptedArray -> NewPlaintextArray -> Z -> NewPlaintextArray;
  negate : EncryptedArray -> NewPlaintextArray -> NewPlaintextArray;
  equals : EncryptedArray -> NewPlaintextArray -> NewPlaintextArray -> bool;

  (* ciphertexts *)
  Ctxt_new : FHEPubKey -> Ctxt;
  encrypt : EncryptedArray -> Ctxt -> FHEPubKey -> NewPlaintextArray -> PRG -> Ctxt * PRG;
  decrypt : EncryptedArray -> Ctxt -> FHESecKey -> NewPlaintextArray -> NewPlaintextArray;
  multiplyBy : Ctxt -> Ctxt -> Ctxt;
  addConstant : Ctxt -> ZZX -> Ctxt;
  multByConstant : Ctxt -> ZZX -> Ctxt;
  Ctxt_add : Ctxt -> Ctxt -> Ctxt;
  Ctxt_sub : Ctxt -> Ctxt -> Ctxt;
  Ctxt_negate : Ctxt -> Ctxt;
  ea_shift : EncryptedArray -> Ctxt -> Z -> Ctxt;
  ea_rotate : EncryptedArray -> Ctxt -> Z -> Ctxt;
  cleanUp : Ctxt -> Ctxt
}.

(** ** Level budget (lines 89-95) *)

Section LevelBudget.

Variable E : Engine.

(** Line 92: the right-hand side is evaluated in [double] and converted to
    [long] by the initialisation. *)
Definition addPerRound (p r : Z) : Z :=
  long_of_double
    (PrimFloat.add
       (PrimFloat.div
          (PrimFloat.mul 2%float
             (ceil E (PrimFloat.mul
                        (PrimFloat.mul (log E (double_of_long p)) (double_of_long r))
                        3%float)))
          (PrimFloat.mul (log E 2%float) (double_of_long (FHE_p2Size E))))
       1%float).

Definition derive_L (R p r L : Z) : Z :=
  if L =? 0 then
    let L := Long.add (Long.mul 3 R) 3 in
    if (2 <? p) || (1 <? r) then
      Long.add L (Long.mul R (addPerRound p r))
    else L
  else L.

End LevelBudget.

(** ** The two random amounts (lines 176-181) *)

(** Argument of the call to [RandomBnd] on line 177. *)
Definition shamt_bound (nslots : Z) : Z :=
  Long.add (Long.mul 2 (Long.div nslots 2)) 1.

(** Value of [shamt] when [RandomBnd] returned [u]. *)
Definition shamt_of (nslots u : Z) : Z :=
  Long.sub u (Long.div nslots 2).

(** Argument of the call to [RandomBnd] on line 180. *)
Definition rotamt_bound (nslots : Z) : Z :=
  Long.sub (Long.mul 2 nslots) 1.

(** Value of [rotamt] when [RandomBnd] returned [u]. *)
Definition rotamt_of (nslots u : Z) : Z :=
  Long.sub u (Long.sub nslots 1).

(** ** Observable behaviour *)

(** The program variables [c0..c3], [tmp] on the ciphertext side and
    [p0..p3], [tmp_p] on the plaintext side. *)
Inductive var : Type := V0 | V1 | V2 | V3 | Vtmp.

(** The two random constant arrays. *)
Inductive konst : Type := Const1 | Const2.

(** The two random amounts. *)
Inductive amount : Type := Shamt | Rotamt.

(** One step of slot arithmetic; the first variable is updated in place. *)
Inductive instr : Type :=
| OpMul (dst src : var)
| OpAddConst (dst : var) (k : konst)
| OpMulConst (dst : var) (k : konst)
| OpCopy (dst src : var)
| OpShift (dst : var) (amt : Z)
| OpAdd (dst src : var)
| OpRotate (dst : var) (amt : Z)
| OpNegate (dst : var)
| OpSub (dst src : var)
| OpCleanUp (dst : var).

(** A call into the engine, with the program variables and the integer
    arguments it was made on. *)
Inductive event : Type :=
| EvSetSeed (seed : Z)
| EvFindM (k L c p d s chosen_m : Z)
| EvFHEcontext (m p r : Z)
| EvBuildModChain (L c : Z)
| EvMakeIrredPoly (p d : Z)
| EvGenSecKey (w : Z)
| EvAddSome1DMatrices
| EvEncryptedArray
| EvRandom (dst : var + konst)
| EvEncrypt (dst : var)
| EvRandomBnd (dst : amount) (n : Z)
| EvEncode (k : konst)
| EvCtxt (op : instr)
| EvPtxt (op : instr)
| EvDecrypt (src : var)
| EvEquals (v : var).

(** What is written to [cout]. *)
Inductive output : Type :=
| OutL (L : Z)
| OutAlgebra (text : string)
| OutSecurity (text : string)
| OutNslots (nslots : Z)
| OutShamt (shamt : Z)
| OutRotamt (rotamt : Z)
| OutCorrect
| OutError.

Definition newline : string := String (Ascii.ascii_of_nat 10) EmptyString.

Definition render (o : output) : string :=
  match o with
  | OutL L => "*** L: " ++ show_long L ++ newline
  | OutAlgebra text => text ++ newline
  | OutSecurity text => "security=" ++ text ++ newline
  | OutNslots n => "nslot = " ++ show_long n ++ newline
  | OutShamt n => "shamt = " ++ show_long n ++ newline
  | OutRotamt n => "rotamt = " ++ show_long n ++ newline
  | OutCorrect => "Homomorphic Computation performed correctly." ++ newline
  | OutError => "ERROR" ++ newline
  end%string.

Definition is_verdict (o : output) : bool :=
  match o with
  | OutCorrect | OutError => true
  | _ => false
  end.

(** ** The program *)

Record quad (A : Type) : Type := Quad { q0 : A; q1 : A; q2 : A; q3 : A }.

Arguments Quad {A} _ _ _ _.
Arguments q0 {A} _.
Arguments q1 {A} _.
Arguments q2 {A} _.
Arguments q3 {A} _.

Section Program.

Variable E : Engine.

(** State of the process around [main]: the generator, the text written so
    far and the engine calls made so far (both newest first). *)
Record world : Type := World {
  prg : PRG E;
  cout : list output;
  calls : list event
}.

Definition printed (w : world) : list output := rev (cout w).
Definition trace (w : world) : list event := rev (calls w).

Inductive outcome (A : Type) : Type :=
| Returned (a : A) (w : world)
| Aborted (w : world).

Arguments Returned {A} _ _.
Arguments Aborted {A} _.

Definition M (A : Type) : Type := world -> outcome A.

Definition ret {A : Type} (a : A) : M A := fun w => Returned a w.

Definition bind {A B : Type} (m : M A) (f : A -> M B) : M B :=
  fun w =>
    match m w with
    | Returned a w' => f a w'
    | Aborted w' => Aborted w'
    end.

Notation "x <- m1 ;; m2" := (bind m1 (fun x => m2))
  (at level 61, m1 at next level, right associativity).
Notation "m1 ;; m2" := (bind m1 (fun _ => m2))
  (at level 61, right associativity).

Definition logged (ev : event) (w : world) : world :=
  World (prg w) (cout w) (ev :: calls w).

(** [cout << ...] *)
Definition print (o : output) : M unit :=
  fun w => Returned tt (World (prg w) (o :: cout w) (calls w)).

(** An engine call that leaves the generator alone. *)
Definition call {A : Type} (ev : event) (a : A) : M A :=
  fun w => Returned a (logged ev w).

(** An engine call that may draw from the generator. *)
Definition sample {A : Type} (ev : event) (f : PRG E -> A * PRG E) : M A :=
  fun w =>
    Returned (fst (f (prg w)))
             (World (snd (f (prg w))) (cout w) (ev :: calls w)).

(** [SetSeed]: the generator is replaced by the one the seed determines. *)
Definition reseed (seed : Z) : M unit :=
  fun w => Returned tt (World (SetSeed E seed) (cout w) (EvSetSeed seed :: calls w)).

(** An engine call that ends the process when it finds no result. *)
Definition fatal {A : Type} (m : M (option A)) : M A :=
  fun w =>
    match m w with
    | Returned (Some a) w' => Returned a w'
    | Returned None w' => Aborted w'
    | Aborted w' => Aborted w'
    end.

(** [a && b] of C++: [b] is evaluated only when [a] holds. *)
Definition and_then (a b : M bool) : M bool :=
  x <- a ;; if x then b else ret false.

(** Values of the local variables when [main] returns; [drawn] and
    [encrypted] keep the arrays as [random] filled them and the ciphertexts
    as [encrypt] produced them. *)
Record report : Type := Report {
  the_L : Z;
  the_m : Z;
  the_security : float;
  the_secretKey : FHESecKey E;
  the_ea : EncryptedArray E;
  the_nslots : Z;
  drawn : quad (NewPlaintextArray E);
  encrypted : quad (Ctxt E);
  the_shamt : Z;
  the_rotamt : Z;
  the_const1 : NewPlaintextArray E;
  the_const2 : NewPlaintextArray E;
  results : quad (Ctxt E);
  plain : quad (NewPlaintextArray E);
  decrypted : quad (NewPlaintextArray E);
  verdict : bool
}.

Definition main (cfg : Opt.config) : M report :=
  let gens := Opt.gens cfg in
  let ords := Opt.ords cfg in
  let seed := Opt.seed cfg in
  let R := Opt.R cfg in
  let p := Opt.p cfg in
  let r := Opt.r cfg in
  let d := Opt.d cfg in
  let c := Opt.c cfg in
  let k := Opt.k cfg in
  let L := Opt.L cfg in
  let s := Opt.s cfg in
  let chosen_m := Opt.chosen_m cfg in
  reseed seed ;;
  let L := derive_L E R p r L in
  print (OutL L) ;;
  let w := 64 in
  m <- fatal (call (EvFindM k L c p d s chosen_m)
                   (FindM E k L c p d s chosen_m false)) ;;
  let gens1 := gens in
  let ords1 := ords in
  context <- sample (EvFHEcontext m p r) (FHEcontext_new E m p r gens1 ords1) ;;
  context <- sample (EvBuildModChain L c) (buildModChain E context L c) ;;
  G <- fatal (sample (EvMakeIrredPoly p d) (makeIrredPoly E p d)) ;;
  print (OutAlgebra (zMStar_printout E context)) ;;
  print (OutSecurity (show_double E (securityLevel E context))) ;;
  let secretKey := FHESecKey_new E context in
  secretKey <- sample (EvGenSecKey w) (GenSecKey E secretKey w) ;;
  secretKey <- sample EvAddSome1DMatrices (addSome1DMatrices E secretKey) ;;
  (* [publicKey] is a reference to [secretKey]; it is first read here *)
  let publicKey := as_FHEPubKey E secretKey in
  ea <- sample EvEncryptedArray (EncryptedArray_new E context G) ;;
  let nslots := size E ea in
  print (OutNslots nslots) ;;
  let p0 := NewPlaintextArray_new E ea in
  let p1 := NewPlaintextArray_new E ea in
  let p2 := NewPlaintextArray_new E ea in
  let p3 := NewPlaintextArray_new E ea in
  p0 <- sample (EvRandom (inl V0)) (random E ea p0) ;;
  p1 <- sample (EvRandom (inl V1)) (random E ea p1) ;;
  p2 <- sample (EvRandom (inl V2)) (random E ea p2) ;;
  p3 <- sample (EvRandom (inl V3)) (random E ea p3) ;;
  let inputs := Quad p0 p1 p2 p3 in
  let c0 := Ctxt_new E publicKey in
  let c1 := Ctxt_new E publicKey in
  let c2 := Ctxt_new E publicKey in
  let c3 := Ctxt_new E publicKey in
  c0 <- sample (EvEncrypt V0) (encrypt E ea c0 publicKey p0) ;;
  c1 <- sample (EvEncrypt V1) (encrypt E ea c1 publicKey p1) ;;
  c2 <- sample (EvEncrypt V2) (encrypt E ea c2 publicKey p2) ;;
  c3 <- sample (EvEncrypt V3) (encrypt E ea c3 publicKey p3) ;;
  let ciphers := Quad c0 c1 c2 c3 in
  u <- sample (EvRandomBnd Shamt (shamt_bound nslots))
              (RandomBnd E (shamt_bound nslots)) ;;
  let shamt := shamt_of nslots u in
  print (OutShamt shamt) ;;
  u <- sample (EvRandomBnd Rotamt (rotamt_bound nslots))
              (RandomBnd E (rotamt_bound nslots)) ;;
  let rotamt := rotamt_of nslots u in
  print (OutRotamt rotamt) ;;
  let const1 := NewPlaintextArray_new E ea in
  let const2 := NewPlaintextArray_new E ea in
  const1 <- sample (EvRandom (inr Const1)) (random E ea const1) ;;
  const2 <- sample (EvRandom (inr Const2)) (random E ea const2) ;;
  const1_poly <- call (EvEncode Const1) (encode E ea const1) ;;
  const2_poly <- call (EvEncode Const2) (encode E ea const2) ;;
  (* computation on the ciphertexts *)
  c1 <- call (EvCtxt (OpMul V1 V0)) (multiplyBy E c1 c0) ;;
  c0 <- call (EvCtxt (OpAddConst V0 Const1)) (addConstant E c0 const1_poly) ;;
  c2 <- call (EvCtxt (OpMulConst V2 Const2)) (multByConstant E c2 const2_poly) ;;
  tmp <- call (EvCtxt (OpCopy Vtmp V1)) c1 ;;
  tmp <- call (EvCtxt (OpShift Vtmp shamt)) (ea_shift E ea tmp shamt) ;;
  c2 <- call (EvCtxt (OpAdd V2 Vtmp)) (Ctxt_add E c2 tmp) ;;
  c2 <- call (EvCtxt (OpRotate V2 rotamt)) (ea_rotate E ea c2 rotamt) ;;
  c1 <- call (EvCtxt (OpNegate V1)) (Ctxt_negate E c1) ;;
  c3 <- call (EvCtxt (OpMul V3 V2)) (multiplyBy E c3 c2) ;;
  c0 <- call (EvCtxt (OpSub V0 V3)) (Ctxt_sub E c0 c3) ;;
  (* the same computation on the plaintexts *)
  p1 <- call (EvPtxt (OpMul V1 V0)) (mul E ea p1 p0) ;;
  p0 <- call (EvPtxt (OpAddConst V0 Const1)) (add E ea p0 const1) ;;
  p2 <- call (EvPtxt (OpMulConst V2 Const2)) (mul E ea p2 const2) ;;
  tmp_p <- call (EvPtxt (OpCopy Vtmp V1)) p1 ;;
  tmp_p <- call (EvPtxt (OpShift Vtmp shamt)) (shift E ea tmp_p shamt) ;;
  p2 <- call (EvPtxt (OpAdd V2 Vtmp)) (add E ea p2 tmp_p) ;;
  p2 <- call (EvPtxt (OpRotate V2 rotamt)) (rotate E ea p2 rotamt) ;;
  p1 <- call (EvPtxt (OpNegate V1)) (negate E ea p1) ;;
  p3 <- call (EvPtxt (OpMul V3 V2)) (mul E ea p3 p2) ;;
  p0 <- call (EvPtxt (OpSub V0 V3)) (sub E ea p0 p3) ;;
  c0 <- call (EvCtxt (OpCleanUp V0)) (cleanUp E c0) ;;
  c1 <- call (EvCtxt (OpCleanUp V1)) (cleanUp E c1) ;;
  c2 <- call (EvCtxt (OpCleanUp V2)) (cleanUp E c2) ;;
  c3 <- call (EvCtxt (OpCleanUp V3)) (cleanUp E c3) ;;
  let pp0 := NewPlaintextArray_new E ea in
  let pp1 := NewPlaintextArray_new E ea in
  let pp2 := NewPlaintextArray_new E ea in
  let pp3 := NewPlaintextArray_new E ea in
  pp0 <- call (EvDecrypt V0) (decrypt E ea c0 secretKey pp0) ;;
  pp1 <- call (EvDecrypt V1) (decrypt E ea c1 secretKey pp1) ;;
  pp2 <- call (EvDecrypt V2) (decrypt E ea c2 secretKey pp2) ;;
  pp3 <- call (EvDecrypt V3) (decrypt E ea c3 secretKey pp3) ;;
  ok <- and_then (call (EvEquals V0) (equals E ea pp0 p0))
          (and_then (call (EvEquals V1) (equals E ea pp1 p1))
             (and_then (call (EvEquals V2) (equals E ea pp2 p2))
                       (call (EvEquals V3) (equals E ea pp3 p3)))) ;;
  (if ok then print OutCorrect else print OutError) ;;
  ret (Report L m (securityLevel E context) secretKey ea nslots inputs ciphers
              shamt rotamt const1 const2
              (Quad c0 c1 c2 c3) (Quad p0 p1 p2 p3) (Quad pp0 pp1 pp2 pp3) ok).

(** A run of the program from a process whose generator is in state
    [g0] and which has written nothing yet. *)
Definition run (cfg : Opt.config) (g0 : PRG E) : outcome report :=
  main cfg (World g0 [] []).

End Program.

Arguments Returned {E A} _ _.
Arguments Aborted {E A} _.
Arguments the_L {E} _.
Arguments the_m {E} _.
Arguments the_security {E} _.
Arguments the_secretKey {E} _.
Arguments the_ea {E} _.
Arguments the_nslots {E} _.
Arguments drawn {E} _.
Arguments encrypted {E} _.
Arguments the_shamt {E} _.
Arguments the_rotamt {E} _.
Arguments the_const1 {E} _.
Arguments the_const2 {E} _.
Arguments results {E} _.
Arguments plain {E} _.
Arguments decrypted {E} _.
Arguments verdict {E} _.
Arguments trace {E} _.
Arguments printed {E} _.

(** ** A small engine to run the program on

    Slots hold integers modulo [p]; a ciphertext is its plaintext array, so
    that the engine is correct by construction.  The flag [sound] selects a
    defective variant whose [cleanUp] clears the ciphertext.  The generator
    is a linear congruential one; [log] and [ceil] are placeholders, the
    runs below do not reach them. *)

Module Toy.

Definition next (g : Z) : Z :=
  (g * 6364136223846793005 + 1442695040888963407) mod 2 ^ 64.

Definition bounded (n : Z) (g : Z) : Z * Z :=
  if n <=? 1 then (0, g) else ((next g / 2 ^ 33) mod n, next g).

Record context : Type := Context { ctx_m : Z; ctx_p : Z; ctx_r : Z }.

Record key : Type := Key { key_ctx : context; key_weight : Z; key_matrices : bool }.

Record array : Type := Array { arr_p : Z; arr_n : Z }.

Record ctxt : Type := Ct { ct_ea : array; ct_slots : list Z }.

Definition find_m (k L c p d s chosen_m : Z) (verbose : bool) : option Z :=
  if chosen_m =? 0 then Some 5
  else if 1 <? chosen_m then Some chosen_m
  else None.

Definition irred (p d : Z) (g : Z) : option (list Z) * Z :=
  (if 1 <=? d then Some (repeat 0 (Z.to_nat d) ++ [1]) else None, g).

Fixpoint draws (n : nat) (p : Z) (g : Z) : list Z * Z :=
  match n with
  | O => ([], g)
  | S n' =>
      let x := bounded p g in
      let rest := draws n' p (snd x) in
      (fst x :: fst rest, snd rest)
  end.

Definition zip (f : Z -> Z -> Z) (ea : array) (a b : list Z) : list Z :=
  map (fun xy => f (fst xy) (snd xy) mod arr_p ea) (combine a b).

(** Rotation to the right by [amt], cyclic. *)
Definition rotate_slots (ea : array) (a : list Z) (amt : Z) : list Z :=
  let n := Z.of_nat (List.length a) in
  map (fun i => nth (Z.to_nat ((Z.of_nat i - amt) mod n)) a 0)
      (seq 0 (List.length a)).

(** Shift to the right by [amt], the vacated slots are cleared. *)
Definition shift_slots (ea : array) (a : list Z) (amt : Z) : list Z :=
  let n := Z.of_nat (List.length a) in
  map (fun i =>
         let j := Z.of_nat i - amt in
         if (0 <=? j) && (j <? n) then nth (Z.to_nat j) a 0 else 0)
      (seq 0 (List.length a)).

Definition lift (f : Z -> Z -> Z) (a : ctxt) (b : list Z) : ctxt :=
  Ct (ct_ea a) (zip f (ct_ea a) (ct_slots a) b).

Fixpoint eqb_list (a b : list Z) : bool :=
  match a, b with
  | [], [] => true
  | x :: a', y :: b' => (x =? y) && eqb_list a' b'
  | _, _ => false
  end.

Definition engine_with (rb : Z -> Z -> Z * Z) (sound : bool) : Engine :=
  {| PRG := Z;
     FHEcontext := context;
     ZZX := list Z;
     FHESecKey := key;
     FHEPubKey := key;
     EncryptedArray := array;
     NewPlaintextArray := list Z;
     Ctxt := ctxt;
     log := fun x => x;
     ceil := fun x => x;
     FHE_p2Size := 25;
     SetSeed := fun seed => seed mod 2 ^ 64;
     RandomBnd := rb;
     FindM := find_m;
     FHEcontext_new := fun m p r _ _ g => (Context m p r, g);
     buildModChain := fun ctx _ _ g => (ctx, g);
     makeIrredPoly := irred;
     zMStar_printout := fun ctx => ("m = " ++ show_long (ctx_m ctx))%string;
     securityLevel := fun _ => 80%float;
     show_double := fun _ => "80"%string;
     FHESecKey_new := fun ctx => Key ctx 0 false;
     as_FHEPubKey := fun sk => sk;
     GenSecKey := fun sk w g => (Key (key_ctx sk) w (key_matrices sk), next g);
     addSome1DMatrices := fun sk g => (Key (key_ctx sk) (key_weight sk) true, g);
     EncryptedArray_new := fun ctx _ g => (Array (ctx_p ctx) (ctx_m ctx - 1), g);
     size := arr_n;
     NewPlaintextArray_new := fun ea => repeat 0 (Z.to_nat (arr_n ea));
     random := fun ea _ g => draws (Z.to_nat (arr_n ea)) (arr_p ea) g;
     encode := fun _ a => a;
     mul := zip Z.mul;
     add := zip Z.add;
     sub := zip Z.sub;
     shift := shift_slots;
     rotate := rotate_slots;
     negate := fun ea a => map (fun x => (- x) mod arr_p ea) a;
     equals := fun _ => eqb_list;
     Ctxt_new := fun _ => Ct (Array 0 0) [];
     encrypt := fun ea _ _ a g => (Ct ea a, next g);
     decrypt := fun _ c _ _ => ct_slots c;
     multiplyBy := fun a b => lift Z.mul a (ct_slots b);
     addConstant := fun a k => lift Z.add a k;
     multByConstant := fun a k => lift Z.mul a k;
     Ctxt_add := fun a b => lift Z.add a (ct_slots b);
     Ctxt_sub := fun a b => lift Z.sub a (ct_slots b);
     Ctxt_negate := fun a => Ct (ct_ea a) (map (fun x => (- x) mod arr_p (ct_ea a)) (ct_slots a));
     ea_shift := fun ea a amt => Ct (ct_ea a) (shift_slots ea (ct_slots a) amt);
     ea_rotate := fun ea a amt => Ct (ct_ea a) (rotate_slots ea (ct_slots a) amt);
     cleanUp := fun a =>
       if sound then a else Ct (ct_ea a) (map (fun _ => 0) (ct_slots a)) |}.

Definition engine (sound : bool) : Engine := engine_with bounded sound.

(** The same numbers as [bounded], but the generator is left as it was. *)
Definition frozen (n : Z) (g : Z) : Z * Z := (fst (bounded n g), g).

End Toy.

(** ** Reading a run *)

Definition final {E : Engine} {A : Type} (o : outcome E A) : world E :=
  match o with
  | Returned _ w => w
  | Aborted w => w
  end.

(** What a run that returned says of the slot count and of the two
    amounts, and its verdict. *)
Definition amounts_of {E : Engine} (o : outcome E (report E)) : option (Z * Z * Z) :=
  match o with
  | Returned rep _ => Some (the_nslots rep, the_shamt rep, the_rotamt rep)
  | Aborted _ => None
  end.

Definition const1_of {E : Engine} (o : outcome E (report E))
  : option (NewPlaintextArray E) :=
  match o with
  | Returned rep _ => Some (the_const1 rep)
  | Aborted _ => None
  end.

Definition verdict_of {E : Engine} (o : outcome E (report E)) : option bool :=
  match o with
  | Returned rep _ => Some (verdict rep)
  | Aborted _ => None
  end.

(** The parameter set is feasible: [FindM] finds an index for the derived
    level budget and [makeIrredPoly] finds a polynomial. *)
Definition feasible (E : Engine) (cfg : Opt.config) : Prop :=
  FindM E (Opt.k cfg)
        (derive_L E (Opt.R cfg) (Opt.p cfg) (Opt.r cfg) (Opt.L cfg))
        (Opt.c cfg) (Opt.p cfg) (Opt.d cfg) (Opt.s cfg) (Opt.chosen_m cfg) false
    <> None /\
  forall g, fst (makeIrredPoly E (Opt.p cfg) (Opt.d cfg) g) <> None.

(** The Hamming weights [GenSecKey] was called with. *)
Definition weights (t : list event) : list Z :=
  flat_map (fun ev => match ev with EvGenSecKey w => [w] | _ => [] end) t.

(** Operations applied to ciphertexts, and to plaintext arrays. *)
Definition ctxt_ops (t : list event) : list instr :=
  flat_map (fun ev => match ev with EvCtxt op => [op] | _ => [] end) t.

Definition ptxt_ops (t : list event) : list instr :=
  flat_map (fun ev => match ev with EvPtxt op => [op] | _ => [] end) t.

(** Normalisations and decryptions, in the order they were made:
    [inl v] for [cleanUp] of [v], [inr v] for its decryption. *)
Definition endgame (t : list event) : list (var + var) :=
  flat_map (fun ev =>
              match ev with
              | EvCtxt (OpCleanUp v) => [inl v]
              | EvDecrypt v => [inr v]
              | _ => []
              end) t.

(** The values drawn for the program, in the order they were drawn. *)
Definition draws (t : list event) : list (var + konst + amount) :=
  flat_map (fun ev =>
              match ev with
              | EvRandom a => [inl a]
              | EvRandomBnd a _ => [inr a]
              | _ => []
              end) t.

(** A shift or a rotation of a ciphertext: the operations that use the
    key-switching matrices. *)
Definition needs_matrices (ev : event) : bool :=
  match ev with
  | EvCtxt (OpShift _ _) | EvCtxt (OpRotate _ _) => true
  | _ => false
  end.

Definition installs_matrices (ev : event) : bool :=
  match ev with
  | EvAddSome1DMatrices => true
  | _ => false
  end.

(** No event of [t] needs the matrices before they are installed;
    [installed] tells whether they are at the start of [t]. *)
Fixpoint guarded (installed : bool) (t : list event) : bool :=
  match t with
  | [] => true
  | ev :: t' =>
      (installed || negb (needs_matrices ev)) &&
      guarded (installed || installs_matrices ev) t'
  end.

(** The four comparisons of line 235. *)
Definition all_equal {E : Engine} (rep : report E) : bool :=
  equals E (the_ea rep) (q0 (decrypted rep)) (q0 (plain rep)) &&
  equals E (the_ea rep) (q1 (decrypted rep)) (q1 (plain rep)) &&
  equals E (the_ea rep) (q2 (decrypted rep)) (q2 (plain rep)) &&
  equals E (the_ea rep) (q3 (decrypted rep)) (q3 (plain rep)).

(** ** The fixed program of the specification (section 4.3, steps 1-9) *)

Definition fixed_program (shamt rotamt : Z) : list instr :=
  [ OpMul V1 V0;
    OpAddConst V0 Const1;
    OpMulConst V2 Const2;
    OpCopy Vtmp V1; OpShift Vtmp shamt;
    OpAdd V2 Vtmp;
    OpRotate V2 rotamt;
    OpNegate V1;
    OpMul V3 V2;
    OpSub V0 V3 ].

(** Step 10: each result ciphertext is normalised. *)
Definition normalisation : list instr :=
  [ OpCleanUp V0; OpCleanUp V1; OpCleanUp V2; OpCleanUp V3 ].

(** Meaning of an instruction on a file of five registers. *)
Record regs (A : Type) : Type := Regs { x0 : A; x1 : A; x2 : A; x3 : A; xtmp : A }.

Arguments Regs {A} _ _ _ _ _.
Arguments x0 {A} _.
Arguments x1 {A} _.
Arguments x2 {A} _.
Arguments x3 {A} _.
Arguments xtmp {A} _.

Definition get {A : Type} (v : var) (f : regs A) : A :=
  match v with
  | V0 => x0 f | V1 => x1 f | V2 => x2 f | V3 => x3 f | Vtmp => xtmp f
  end.

Definition put {A : Type} (v : var) (a : A) (f : regs A) : regs A :=
  match v with
  | V0 => Regs a (x1 f) (x2 f) (x3 f) (xtmp f)
  | V1 => Regs (x0 f) a (x2 f) (x3 f) (xtmp f)
  | V2 => Regs (x0 f) (x1 f) a (x3 f) (xtmp f)
  | V3 => Regs (x0 f) (x1 f) (x2 f) a (xtmp f)
  | Vtmp => Regs (x0 f) (x1 f) (x2 f) (x3 f) a
  end.

Definition outputs {A : Type} (f : regs A) : quad A :=
  Quad (x0 f) (x1 f) (x2 f) (x3 f).

Section Meaning.

Variable E : Engine.
Variable ea : EncryptedArray E.
Variable konst_of : konst -> NewPlaintextArray E.

(** On ciphertexts, with the operations bound to the public key. *)
Definition exec_ctxt (op : instr) (f : regs (Ctxt E)) : regs (Ctxt E) :=
  match op with
  | OpMul dst src => put dst (multiplyBy E (get dst f) (get src f)) f
  | OpAddConst dst k => put dst (addConstant E (get dst f) (encode E ea (konst_of k))) f
  | OpMulConst dst k => put dst (multByConstant E (get dst f) (encode E ea (konst_of k))) f
  | OpCopy dst src => put dst (get src f) f
  | OpShift dst amt => put dst (ea_shift E ea (get dst f) amt) f
  | OpAdd dst src => put dst (Ctxt_add E (get dst f) (get src f)) f
  | OpRotate dst amt => put dst (ea_rotate E ea (get dst f) amt) f
  | OpNegate dst => put dst (Ctxt_negate E (get dst f)) f
  | OpSub dst src => put dst (Ctxt_sub E (get dst f) (get src f)) f
  | OpCleanUp dst => put dst (cleanUp E (get dst f)) f
  end.

(** On plaintext arrays, with the slot-wise arithmetic; there is nothing
    to normalise. *)
Definition exec_ptxt (op : instr) (f : regs (NewPlaintextArray E))
  : regs (NewPlaintextArray E) :=
  match op with
  | OpMul dst src => put dst (mul E ea (get dst f) (get src f)) f
  | OpAddConst dst k => put dst (add E ea (get dst f) (konst_of k)) f
  | OpMulConst dst k => put dst (mul E ea (get dst f) (konst_of k)) f
  | OpCopy dst src => put dst (get src f) f
  | OpShift dst amt => put dst (shift E ea (get dst f) amt) f
  | OpAdd dst src => put dst (add E ea (get dst f) (get src f)) f
  | OpRotate dst amt => put dst (rotate E ea (get dst f) amt) f
  | OpNegate dst => put dst (negate E ea (get dst f)) f
  | OpSub dst src => put dst (sub E ea (get dst f) (get src f)) f
  | OpCleanUp dst => f
  end.

Definition exec_all {A : Type} (step : instr -> regs A -> regs A)
    (prog : list instr) (f : regs A) : regs A :=
  fold_left (fun f op => step op f) prog f.

End Meaning.

(** The two constants of a run, by name. *)
Definition konsts {E : Engine} (rep : report E) (k : konst) : NewPlaintextArray E :=
  match k with
  | Const1 => the_const1 rep
  | Const2 => the_const2 rep
  end.

(** ** The contract of [RandomBnd] and uniform draws *)

(** [RandomBnd(n)] returns a number in [[0, n)], and 0 when [n <= 0]. *)
Definition valid_draw (n u : Z) : Prop :=
  (0 < n -> 0 <= u < n) /\ (n <= 0 -> u = 0).

Definition RandomBnd_ok (E : Engine) : Prop :=
  forall n g, valid_draw n (fst (RandomBnd E n g)).

(** [f] maps the draws [[0, bound)] one-to-one onto [[lo, hi]]: a uniform
    draw gives a uniform value of the interval. *)
Definition uniform_on (lo hi bound : Z) (f : Z -> Z) : Prop :=
  (forall u, 0 <= u < bound -> lo <= f u <= hi) /\
  (forall t, lo <= t <= hi -> exists u, 0 <= u < bound /\ f u = t) /\
  (forall u u', 0 <= u < bound -> 0 <= u' < bound -> f u = f u' -> u = u').

(** ** More ways to read a run *)

(** The comparisons that were made, by the pair compared. *)
Definition equals_calls (t : list event) : list var :=
  flat_map (fun ev => match ev with EvEquals v => [v] | _ => [] end) t.

(** The pairs line 235 compares when the first three comparisons answer
    [e0], [e1] and [e2]. *)
Definition compared (e0 e1 e2 : bool) : list var :=
  V0 :: (if e0 then V1 :: (if e1 then V2 :: (if e2 then [V3] else []) else [])
         else []).

(** The arguments [RandomBnd] was called with. *)
Definition bounds (t : list event) : list Z :=
  flat_map (fun ev => match ev with EvRandomBnd _ n => [n] | _ => [] end) t.

(** A call that needs the secret key to have been generated: an
    encryption under its public half, a ciphertext operation, a
    decryption. *)
Definition uses_key (ev : event) : bool :=
  match ev with
  | EvEncrypt _ | EvCtxt _ | EvDecrypt _ => true
  | _ => false
  end.

(** The generation of the key, with the weight of line 100. *)
Definition generates_key (ev : event) : bool :=
  match ev with
  | EvGenSecKey w => w =? 64
  | _ => false
  end.

(** No event of [t] satisfies [needs] before one that satisfies
    [provides]; [provided] tells whether one came before [t]. *)
Fixpoint guarded_by (provides needs : event -> bool) (provided : bool)
    (t : list event) : bool :=
  match t with
  | [] => true
  | ev :: t' =>
      (provided || negb (needs ev)) &&
      guarded_by provides needs (provided || provides ev) t'
  end.

(** ** Engines that compute on encrypted data

    [Enc ea sk c a] reads "[c] is a ciphertext of the array [a] under the
    key [sk]".  The relation is kept by encryption and by every operation
    of the program, and a ciphertext decrypts to an array that [equals]
    accepts. *)
Record Homomorphic (E : Engine)
    (Enc : EncryptedArray E -> FHESecKey E -> Ctxt E -> NewPlaintextArray E -> Prop)
  : Prop := {
  hom_encrypt : forall ea sk c0 a g,
    Enc ea sk (fst (encrypt E ea c0 (as_FHEPubKey E sk) a g)) a;
  hom_multiplyBy : forall ea sk c c' a a',
    Enc ea sk c a -> Enc ea sk c' a' ->
    Enc ea sk (multiplyBy E c c') (mul E ea a a');
  hom_addConstant : forall ea sk c a k,
    Enc ea sk c a -> Enc ea sk (addConstant E c (encode E ea k)) (add E ea a k);
  hom_multByConstant : forall ea sk c a k,
    Enc ea sk c a -> Enc ea sk (multByConstant E c (encode E ea k)) (mul E ea a k);
  hom_shift : forall ea sk c a n,
    Enc ea sk c a -> Enc ea sk (ea_shift E ea c n) (shift E ea a n);
  hom_rotate : forall ea sk c a n,
    Enc ea sk c a -> Enc ea sk (ea_rotate E ea c n) (rotate E ea a n);
  hom_add : forall ea sk c c' a a',
    Enc ea sk c a -> Enc ea sk c' a' -> Enc ea sk (Ctxt_add E c c') (add E ea a a');
  hom_sub : forall ea sk c c' a a',
    Enc ea sk c a -> Enc ea sk c' a' -> Enc ea sk (Ctxt_sub E c c') (sub E ea a a');
  hom_negate : forall ea sk c a,
    Enc ea sk c a -> Enc ea sk (Ctxt_negate E c) (negate E ea a);
  hom_cleanUp : forall ea sk c a,
    Enc ea sk c a -> Enc ea sk (cleanUp E c) a;
  hom_decrypt : forall ea sk c a fresh,
    Enc ea sk c a -> equals E ea (decrypt E ea c sk fresh) a = true
}.

(** In the small engine a ciphertext of [a] for the array [ea] carries
    [ea] and the slots of [a]. *)
Definition Toy_Enc (ea : Toy.array) (sk : Toy.key) (c : Toy.ctxt) (a : list Z) : Prop :=
  Toy.ct_ea c = ea /\ Toy.ct_slots c = a.

(** The default options with another extension degree, and with an
    explicit level budget. *)
Definition with_degree (d : Z) : Opt.config :=
  {| Opt.gens := []; Opt.ords := []; Opt.seed := 0; Opt.R := 1; Opt.p := 2;
     Opt.r := 1; Opt.d := d; Opt.c := 2; Opt.k := 80; Opt.L := 0; Opt.s := 0;
     Opt.chosen_m := 0 |}.

Definition with_budget (L : Z) : Opt.config :=
  {| Opt.gens := []; Opt.ords := []; Opt.seed := 0; Opt.R := 1; Opt.p := 3;
     Opt.r := 2; Opt.d := 1; Opt.c := 2; Opt.k := 80; Opt.L := L; Opt.s := 0;
     Opt.chosen_m := 0 |}.

(** * Properties *)

(** ** Arithmetic of [long] *)

Lemma long_min_val : Long.long_min = -9223372036854775808.
Proof. reflexivity. Qed.

Lemma long_max_val : Long.long_max = 9223372036854775807.
Proof. reflexivity. Qed.

Lemma modulus_val : Long.modulus = 18446744073709551616.
Proof. reflexivity. Qed.

Lemma wrap_small (z : Z) : Long.in_range z -> Long.wrap z = z.
Proof.
  unfold Long.in_range, Long.wrap.
  rewrite long_min_val, long_max_val, modulus_val. intros H.
  rewrite Z.mod_small; lia.
Qed.

Lemma wrap_in_range (z : Z) : Long.in_range (Long.wrap z).
Proof.
  unfold Long.in_range, Long.wrap.
  rewrite long_min_val, long_max_val, modulus_val.
  pose proof (Z.mod_pos_bound (z - -9223372036854775808) 18446744073709551616).
  lia.
Qed.

Lemma div2_small (n : Z) : 0 <= n -> Long.in_range n -> Long.div n 2 = n / 2.
Proof.
  intros Hn Hr. unfold Long.div. rewrite Z.quot_div_nonneg by lia.
  apply wrap_small. unfold Long.in_range in *.
  rewrite long_min_val, long_max_val in *.
  pose proof (Z.div_pos n 2). pose proof (Z.div_le_upper_bound n 2 n).
  lia.
Qed.

(** ** Running [main] step by step *)

Section Runs.

Variable E : Engine.

Lemma bind_reseed {B : Type} (seed : Z) (k : unit -> M E B) (w : world E) :
  bind E (reseed E seed) k w =
  k tt (World E (SetSeed E seed) (cout E w) (EvSetSeed seed :: calls E w)).
Proof. reflexivity. Qed.

Lemma bind_print {B : Type} (o : output) (k : unit -> M E B) (w : world E) :
  bind E (print E o) k w = k tt (World E (prg E w) (o :: cout E w) (calls E w)).
Proof. reflexivity. Qed.

Lemma bind_call {A B : Type} (ev : event) (a : A) (k : A -> M E B) (w : world E) :
  bind E (call E ev a) k w = k a (World E (prg E w) (cout E w) (ev :: calls E w)).
Proof. reflexivity. Qed.

Lemma bind_sample {A B : Type} (ev : event) (f : PRG E -> A * PRG E)
    (k : A -> M E B) (w : world E) :
  bind E (sample E ev f) k w =
  k (fst (f (prg E w))) (World E (snd (f (prg E w))) (cout E w) (ev :: calls E w)).
Proof. reflexivity. Qed.

Lemma bind_fatal_call {A B : Type} (ev : event) (o : option A)
    (k : A -> M E B) (w : world E) :
  bind E (fatal E (call E ev o)) k w =
  match o with
  | Some a => k a (World E (prg E w) (cout E w) (ev :: calls E w))
  | None => Aborted (World E (prg E w) (cout E w) (ev :: calls E w))
  end.
Proof. unfold bind, fatal, call, logged. destruct o; reflexivity. Qed.

Lemma bind_fatal_sample {A B : Type} (ev : event) (f : PRG E -> option A * PRG E)
    (k : A -> M E B) (w : world E) :
  bind E (fatal E (sample E ev f)) k w =
  match fst (f (prg E w)) with
  | Some a => k a (World E (snd (f (prg E w))) (cout E w) (ev :: calls E w))
  | None => Aborted (World E (snd (f (prg E w))) (cout E w) (ev :: calls E w))
  end.
Proof. unfold bind, fatal, sample. destruct (fst (f (prg E w))); reflexivity. Qed.

Lemma bind_bind {A B C : Type} (m : M E A) (f : A -> M E B) (k : B -> M E C)
    (w : world E) :
  bind E (bind E m f) k w = bind E m (fun a => bind E (f a) k) w.
Proof. unfold bind. destruct (m w); reflexivity. Qed.

Lemma bind_ret {A B : Type} (a : A) (k : A -> M E B) (w : world E) :
  bind E (ret E a) k w = k a w.
Proof. reflexivity. Qed.

(** One statement of [main]: the engine's answer becomes a variable, with
    the equation that defines it. *)
Ltac step :=
  cbv beta zeta;
  lazymatch goal with
  | |- context [bind E (reseed E _) _ _] => rewrite bind_reseed
  | |- context [bind E (print E _) _ _] => rewrite bind_print
  | |- context [bind E (call E _ _) _ _] => rewrite bind_call
  | |- context [bind E (sample E _ ?f) _ _] =>
      rewrite bind_sample; cbn [prg cout calls];
      lazymatch goal with
      | |- context [fst (f ?g0)] =>
          let x := fresh "x" in
          let g := fresh "g" in
          destruct (f g0) as [x g] eqn:?; cbn [fst snd]
      end
  | |- context [bind E (fatal E (call E _ ?o)) _ _] =>
      rewrite bind_fatal_call; destruct o eqn:?
  | |- context [bind E (fatal E (sample E _ ?f)) _ _] =>
      rewrite bind_fatal_sample; cbn [prg cout calls];
      lazymatch goal with
      | |- context [fst (f ?g0)] =>
          let x := fresh "x" in
          let g := fresh "g" in
          destruct (f g0) as [[x|] g] eqn:?; cbn [fst snd]
      end
  | |- context [bind E (and_then E _ _) _ _] =>
      unfold and_then at 1; rewrite bind_bind
  | |- context [bind E (if ?b then _ else _) _ _] => destruct b eqn:?
  | |- context [bind E (ret E _) _ _] => rewrite bind_ret
  end;
  cbn [prg cout calls].

Ltac execute := unfold run, main; repeat step; unfold ret; cbn [final].

Ltac infeasible H :=
  exfalso; destruct H as [HF HG]; cbn in HF, HG;
  first [ congruence
        | match goal with
          | Hq : makeIrredPoly E ?p ?d ?g = (None, _) |- _ =>
              apply (HG g); rewrite Hq; reflexivity
          end ].

(** A feasible parameter set lets [main] run to its end. *)
Lemma run_returns (cfg : Opt.config) (g0 : PRG E) :
  feasible E cfg -> exists rep w, run E cfg g0 = Returned rep w.
Proof.
  intros H. execute; try (infeasible H); eauto.
Qed.


Ltac read_trace :=
  cbv [trace printed calls cout rev app weights ctxt_ops ptxt_ops endgame draws
       flat_map filter is_verdict guarded needs_matrices installs_matrices
       orb andb negb].

(** The first line written is the derived level budget, in every run. *)
Lemma level_budget_printed (cfg : Opt.config) (g0 : PRG E) :
  exists rest,
    printed (final (run E cfg g0)) =
    OutL (derive_L E (Opt.R cfg) (Opt.p cfg) (Opt.r cfg) (Opt.L cfg)) :: rest.
Proof.
  execute; read_trace; eexists; reflexivity.
Qed.

(** C1: when the parameter set is feasible the program runs to its end and
    prints exactly one verdict, as its last output: the success message when
    the four decrypted arrays equal the four plaintext results, the ERROR
    message otherwise.  A mismatch is reported and [main] returns all the
    same. *)
Theorem verdict_reported (cfg : Opt.config) (g0 : PRG E) :
  feasible E cfg ->
  exists rep w,
    run E cfg g0 = Returned rep w /\
    verdict rep = all_equal rep /\
    filter is_verdict (printed w) =
      [if all_equal rep then OutCorrect else OutError] /\
    exists before,
      printed w = before ++ [if all_equal rep then OutCorrect else OutError].
Proof.
  intros H. execute; try (infeasible H).
  all: eexists; eexists; split; [reflexivity|].
  all: unfold all_equal; cbn [verdict the_ea decrypted plain q0 q1 q2 q3].
  all: repeat match goal with
         | Hq : equals E _ _ _ = _ |- _ => rewrite Hq; clear Hq
         end.
  all: cbn [andb]; read_trace.
  all: split; [reflexivity|]; split; [reflexivity|].
  all: match goal with
       | |- exists before, ?l = _ => exists (removelast l); reflexivity
       end.
Qed.


(** C8: whatever the twelve options are, a feasible run generates the
    secret key with the Hamming weight 64: [GenSecKey] is called once, on
    the key made for the context, with the argument 64, and the key it
    returns, once given the matrices, is the secret key of the run. *)
Theorem secret_key_weight (cfg : Opt.config) (g0 : PRG E) :
  feasible E cfg ->
  exists rep w,
    run E cfg g0 = Returned rep w /\
    weights (trace w) = [64] /\
    exists context sk0 g g' g'',
      GenSecKey E (FHESecKey_new E context) 64 g = (sk0, g') /\
      addSome1DMatrices E sk0 g' = (the_secretKey rep, g'').
Proof.
  intros H. execute; try (infeasible H).
  all: eexists; eexists; split; [reflexivity|].
  all: split; [read_trace; reflexivity|].
  all: cbn [the_secretKey]; do 5 eexists; split; eassumption.
Qed.

(** C2: a feasible run returns, and in it the operations applied to the
    ciphertexts are the ten steps of the fixed program followed by the four
    normalisations, the operations applied to the plaintext arrays are the
    same ten steps with the same shift and rotation amounts and no
    normalisation, and every ciphertext is normalised before the first
    decryption.  The results are what the program computes from the
    encrypted inputs on one side and from the drawn inputs on the other. *)
Theorem both_paths_run_fixed_program (cfg : Opt.config) (g0 : PRG E) :
  feasible E cfg ->
  exists rep w,
    run E cfg g0 = Returned rep w /\
    let prog := fixed_program (the_shamt rep) (the_rotamt rep) in
    let ea := the_ea rep in
    let start {A : Type} (q : quad A) (t : A) : regs A :=
      Regs (q0 q) (q1 q) (q2 q) (q3 q) t in
    ctxt_ops (trace w) = prog ++ normalisation /\
    ptxt_ops (trace w) = prog /\
    endgame (trace w) =
      [inl V0; inl V1; inl V2; inl V3; inr V0; inr V1; inr V2; inr V3] /\
    (forall t, results rep =
       outputs (exec_all (exec_ctxt E ea (konsts rep)) (prog ++ normalisation)
                         (start (encrypted rep) t))) /\
    (forall t, plain rep =
       outputs (exec_all (exec_ptxt E ea (konsts rep)) prog
                         (start (drawn rep) t))) /\
    decrypted rep =
      Quad (decrypt E ea (q0 (results rep)) (the_secretKey rep) (NewPlaintextArray_new E ea))
           (decrypt E ea (q1 (results rep)) (the_secretKey rep) (NewPlaintextArray_new E ea))
           (decrypt E ea (q2 (results rep)) (the_secretKey rep) (NewPlaintextArray_new E ea))
           (decrypt E ea (q3 (results rep)) (the_secretKey rep) (NewPlaintextArray_new E ea)).
Proof.
  intros H. execute; try (infeasible H).
  all: eexists; eexists; split; [reflexivity|].
  all: read_trace; cbv zeta;
    cbn [the_shamt the_rotamt the_ea results plain drawn encrypted decrypted
         the_secretKey q0 q1 q2 q3];
    repeat split; reflexivity.
Qed.

(** C6: the generator is reseeded before anything is derived or drawn, so
    a run does not depend on the state the generator was in: with the same
    options (the seed among them) two runs end alike, with the same report
    (level budget, index, slot count, security level, the drawn arrays and
    amounts), the same output and the same calls. *)
Theorem run_determined_by_options (cfg : Opt.config) (g0 g0' : PRG E) :
  run E cfg g0 = run E cfg g0'.
Proof.
  unfold run, main. cbv zeta. rewrite !bind_reseed. reflexivity.
Qed.

(** C9: a feasible run returns, and its values are drawn in the order p0,
    p1, p2, p3, shamt, rotamt, const1, const2.  The generator is threaded
    from [SetSeed] through the set-up, the four draws of p0..p3 and the
    four encryptions; [shamt] is drawn from the generator the last
    encryption left, [rotamt] from the one the draw of [shamt] left,
    [const1] from the one the draw of [rotamt] left and [const2] from the
    one [const1] left. *)
Theorem draw_order (cfg : Opt.config) (g0 : PRG E) :
  feasible E cfg ->
  exists rep w,
    run E cfg g0 = Returned rep w /\
    draws (trace w) =
      [inl (inl V0); inl (inl V1); inl (inl V2); inl (inl V3);
       inr Shamt; inr Rotamt; inl (inr Const1); inl (inr Const2)] /\
    let n := the_nslots rep in
    let ea := the_ea rep in
    let fresh := NewPlaintextArray_new E ea in
    let sk := the_secretKey rep in
    let pk := as_FHEPubKey E sk in
    exists context0 context G sk0,
    exists g_1 g_2 g_3 g_4 g_5 g_6 g_7 g_8 g_9 g_10 g_11 g_12 g_13 g_14,
    exists u_s g_15 u_r g_16 g_17 g_18,
      FHEcontext_new E (the_m rep) (Opt.p cfg) (Opt.r cfg) (Opt.gens cfg)
                     (Opt.ords cfg) (SetSeed E (Opt.seed cfg)) = (context0, g_1) /\
      buildModChain E context0 (the_L rep) (Opt.c cfg) g_1 = (context, g_2) /\
      makeIrredPoly E (Opt.p cfg) (Opt.d cfg) g_2 = (Some G, g_3) /\
      GenSecKey E (FHESecKey_new E context) 64 g_3 = (sk0, g_4) /\
      addSome1DMatrices E sk0 g_4 = (sk, g_5) /\
      EncryptedArray_new E context G g_5 = (ea, g_6) /\
      random E ea fresh g_6 = (q0 (drawn rep), g_7) /\
      random E ea fresh g_7 = (q1 (drawn rep), g_8) /\
      random E ea fresh g_8 = (q2 (drawn rep), g_9) /\
      random E ea fresh g_9 = (q3 (drawn rep), g_10) /\
      encrypt E ea (Ctxt_new E pk) pk (q0 (drawn rep)) g_10 = (q0 (encrypted rep), g_11) /\
      encrypt E ea (Ctxt_new E pk) pk (q1 (drawn rep)) g_11 = (q1 (encrypted rep), g_12) /\
      encrypt E ea (Ctxt_new E pk) pk (q2 (drawn rep)) g_12 = (q2 (encrypted rep), g_13) /\
      encrypt E ea (Ctxt_new E pk) pk (q3 (drawn rep)) g_13 = (q3 (encrypted rep), g_14) /\
      RandomBnd E (shamt_bound n) g_14 = (u_s, g_15) /\
      the_shamt rep = shamt_of n u_s /\
      RandomBnd E (rotamt_bound n) g_15 = (u_r, g_16) /\
      the_rotamt rep = rotamt_of n u_r /\
      random E ea fresh g_16 = (the_const1 rep, g_17) /\
      random E ea fresh g_17 = (the_const2 rep, g_18).
Proof.
  intros H. execute; try (infeasible H).
  all: eexists; eexists; split; [reflexivity|].
  all: split; [read_trace; reflexivity|].
  all: cbv zeta;
    cbn [the_nslots the_ea the_secretKey the_m the_L drawn encrypted
         the_shamt the_rotamt the_const1 the_const2 q0 q1 q2 q3].
  all: do 4 eexists; do 14 eexists; do 6 eexists.
  all: repeat (split; [first [eassumption | reflexivity]|]); eassumption.
Qed.

(** The two amounts of a run are made from the answers of two consecutive
    calls of [RandomBnd]. *)
Lemma run_amount_draws (cfg : Opt.config) (g0 : PRG E) (rep : report E) (w : world E) :
  run E cfg g0 = Returned rep w ->
  exists g u_s g_s u_r g_r,
    RandomBnd E (shamt_bound (the_nslots rep)) g = (u_s, g_s) /\
    RandomBnd E (rotamt_bound (the_nslots rep)) g_s = (u_r, g_r) /\
    the_shamt rep = shamt_of (the_nslots rep) u_s /\
    the_rotamt rep = rotamt_of (the_nslots rep) u_r.
Proof.
  execute; intros Hrun; try discriminate Hrun.
  all: injection Hrun as <- _.
  all: cbn [the_nslots the_shamt the_rotamt].
  all: do 5 eexists; split; [eassumption|]; split; [eassumption|];
    split; reflexivity.
Qed.

(** ** Further properties of a run *)

Ltac read_calls :=
  cbv [trace printed calls cout rev app firstn equals_calls compared flat_map
       guarded_by uses_key generates_key orb andb negb Z.eqb Pos.eqb].

Notation derived cfg :=
  (derive_L E (Opt.R cfg) (Opt.p cfg) (Opt.r cfg) (Opt.L cfg)) (only parsing).

(** X1: when [FindM] finds no index the process ends there: the level
    budget is the only line written, and the generator was seeded and
    [FindM] called, nothing else. *)
Theorem no_index_aborts (cfg : Opt.config) (g0 : PRG E) :
  FindM E (Opt.k cfg) (derived cfg) (Opt.c cfg) (Opt.p cfg) (Opt.d cfg)
        (Opt.s cfg) (Opt.chosen_m cfg) false = None ->
  exists w,
    run E cfg g0 = Aborted w /\
    trace w =
      [EvSetSeed (Opt.seed cfg);
       EvFindM (Opt.k cfg) (derived cfg) (Opt.c cfg) (Opt.p cfg) (Opt.d cfg)
               (Opt.s cfg) (Opt.chosen_m cfg)] /\
    printed w = [OutL (derived cfg)].
Proof.
  intros H. execute; try congruence.
  eexists. split; [reflexivity|]. read_calls. split; reflexivity.
Qed.

(** X2: when an index is found and [makeIrredPoly] finds no polynomial the
    process ends after the context and the modulus chain were built: the
    level budget is the only line written, no key was generated and
    nothing was drawn. *)
Theorem no_polynomial_aborts (cfg : Opt.config) (g0 : PRG E) (m : Z) :
  FindM E (Opt.k cfg) (derived cfg) (Opt.c cfg) (Opt.p cfg) (Opt.d cfg)
        (Opt.s cfg) (Opt.chosen_m cfg) false = Some m ->
  (forall g, fst (makeIrredPoly E (Opt.p cfg) (Opt.d cfg) g) = None) ->
  exists w,
    run E cfg g0 = Aborted w /\
    trace w =
      [EvSetSeed (Opt.seed cfg);
       EvFindM (Opt.k cfg) (derived cfg) (Opt.c cfg) (Opt.p cfg) (Opt.d cfg)
               (Opt.s cfg) (Opt.chosen_m cfg);
       EvFHEcontext m (Opt.p cfg) (Opt.r cfg);
       EvBuildModChain (derived cfg) (Opt.c cfg);
       EvMakeIrredPoly (Opt.p cfg) (Opt.d cfg)] /\
    printed w = [OutL (derived cfg)].
Proof.
  intros HF HG. execute; try congruence.
  all: match goal with
       | Hq : makeIrredPoly E ?p ?d ?g = (_, _) |- _ =>
           pose proof (HG g) as Hn; rewrite Hq in Hn; cbn [fst] in Hn
       end; try discriminate.
  eexists. split; [reflexivity|]. read_calls.
  assert (z = m) by congruence. subst z. split; reflexivity.
Qed.

(** X3: a run that returns has written seven lines, in this order: the
    level budget, the algebra, the security level, the slot count, the two
    amounts and the verdict; the numbers are the ones the run computed
    with.  A run that ends early has written the level budget only. *)
Theorem output_lines (cfg : Opt.config) (g0 : PRG E) :
  match run E cfg g0 with
  | Returned rep w =>
      the_L rep = derived cfg /\
      the_nslots rep = size E (the_ea rep) /\
      exists algebra,
        printed w =
          [OutL (the_L rep); OutAlgebra algebra;
           OutSecurity (show_double E (the_security rep));
           OutNslots (the_nslots rep);
           OutShamt (the_shamt rep); OutRotamt (the_rotamt rep);
           if verdict rep then OutCorrect else OutError]
  | Aborted w => printed w = [OutL (derived cfg)]
  end.
Proof.
  execute; read_calls; try reflexivity.
  all: cbn [the_L the_nslots the_ea the_security the_shamt the_rotamt verdict].
  all: split; [reflexivity|]; split; [reflexivity|]; eexists; reflexivity.
Qed.

(** X4: a run that returns starts with these eight calls: the index that
    [FindM] returned is the one the context is built with, and the level
    budget that is printed is the one given to [FindM] and to
    [buildModChain]. *)
Theorem setup_calls (cfg : Opt.config) (g0 : PRG E) :
  match run E cfg g0 with
  | Returned rep w =>
      FindM E (Opt.k cfg) (the_L rep) (Opt.c cfg) (Opt.p cfg) (Opt.d cfg)
            (Opt.s cfg) (Opt.chosen_m cfg) false = Some (the_m rep) /\
      firstn 8 (trace w) =
        [EvSetSeed (Opt.seed cfg);
         EvFindM (Opt.k cfg) (the_L rep) (Opt.c cfg) (Opt.p cfg) (Opt.d cfg)
                 (Opt.s cfg) (Opt.chosen_m cfg);
         EvFHEcontext (the_m rep) (Opt.p cfg) (Opt.r cfg);
         EvBuildModChain (the_L rep) (Opt.c cfg);
         EvMakeIrredPoly (Opt.p cfg) (Opt.d cfg);
         EvGenSecKey 64;
         EvAddSome1DMatrices;
         EvEncryptedArray]
  | Aborted w => firstn 1 (trace w) = [EvSetSeed (Opt.seed cfg)]
  end.
Proof.
  execute; read_calls; try reflexivity.
  all: cbn [the_L the_m]; split; [assumption | reflexivity].
Qed.

(** X5: the key that decrypts is the key that was generated with weight 64
    and then given the matrices, and each of the four ciphertexts is the
    encryption, under the public half of that key, of the array drawn for
    it; the four encryptions use the generator one after the other. *)
Theorem encrypted_under_own_key (cfg : Opt.config) (g0 : PRG E) :
  match run E cfg g0 with
  | Returned rep w =>
      let sk := the_secretKey rep in
      let pk := as_FHEPubKey E sk in
      let ea := the_ea rep in
      (exists context sk0 g g' g'',
         GenSecKey E (FHESecKey_new E context) 64 g = (sk0, g') /\
         addSome1DMatrices E sk0 g' = (sk, g'')) /\
      (exists g_0 g_1 g_2 g_3 g_4,
         encrypt E ea (Ctxt_new E pk) pk (q0 (drawn rep)) g_0 = (q0 (encrypted rep), g_1) /\
         encrypt E ea (Ctxt_new E pk) pk (q1 (drawn rep)) g_1 = (q1 (encrypted rep), g_2) /\
         encrypt E ea (Ctxt_new E pk) pk (q2 (drawn rep)) g_2 = (q2 (encrypted rep), g_3) /\
         encrypt E ea (Ctxt_new E pk) pk (q3 (drawn rep)) g_3 = (q3 (encrypted rep), g_4))
  | Aborted _ => True
  end.
Proof.
  execute; try exact I.
  all: cbv zeta; cbn [the_secretKey the_ea drawn encrypted q0 q1 q2 q3].
  all: split; [do 5 eexists; split; eassumption|].
  all: do 5 eexists; repeat split; eassumption.
Qed.

(** X7: the comparisons are made in the order 0, 1, 2, 3 and stop at the
    first pair that differs: a pair is compared only when all the pairs
    before it were found equal. *)
Theorem comparisons_stop_at_mismatch (cfg : Opt.config) (g0 : PRG E) :
  match run E cfg g0 with
  | Returned rep w =>
      let same (q : forall A : Type, quad A -> A) :=
        equals E (the_ea rep) (q _ (decrypted rep)) (q _ (plain rep)) in
      equals_calls (trace w) = compared (same (@q0)) (same (@q1)) (same (@q2))
  | Aborted w => equals_calls (trace w) = []
  end.
Proof.
  execute; try (read_calls; reflexivity).
  all: cbv zeta; cbn [the_ea decrypted plain q0 q1 q2 q3].
  all: repeat match goal with
         | Hq : equals E _ _ _ = _ |- _ => rewrite Hq; clear Hq
         end.
  all: read_calls; reflexivity.
Qed.

(** X8: the four plaintext results in terms of the arrays drawn: the
    product [p1 * p0] is taken on the [p0] that was drawn, before [const1]
    is added to it; it is shifted into [p2] before it is negated; and the
    result 0 subtracts the final result 3.  The four ciphertext results
    are the same expressions over the engine's ciphertext operations,
    normalised. *)
Theorem results_in_closed_form (cfg : Opt.config) (g0 : PRG E) :
  match run E cfg g0 with
  | Returned rep w =>
      let ea := the_ea rep in
      let sh := the_shamt rep in
      let ro := the_rotamt rep in
      let k1 := the_const1 rep in
      let k2 := the_const2 rep in
      let p := drawn rep in
      let c := encrypted rep in
      let p10 := mul E ea (q1 p) (q0 p) in
      let p2' := rotate E ea (add E ea (mul E ea (q2 p) k2) (shift E ea p10 sh)) ro in
      let p3' := mul E ea (q3 p) p2' in
      let c10 := multiplyBy E (q1 c) (q0 c) in
      let c2' :=
        ea_rotate E ea
          (Ctxt_add E (multByConstant E (q2 c) (encode E ea k2)) (ea_shift E ea c10 sh))
          ro in
      let c3' := multiplyBy E (q3 c) c2' in
      plain rep =
        Quad (sub E ea (add E ea (q0 p) k1) p3') (negate E ea p10) p2' p3' /\
      results rep =
        Quad (cleanUp E (Ctxt_sub E (addConstant E (q0 c) (encode E ea k1)) c3'))
             (cleanUp E (Ctxt_negate E c10))
             (cleanUp E c2')
             (cleanUp E c3')
  | Aborted _ => True
  end.
Proof.
  execute; try exact I.
  all: cbv zeta;
    cbn [the_ea the_shamt the_rotamt the_const1 the_const2 drawn encrypted
         plain results q0 q1 q2 q3].
  all: split; reflexivity.
Qed.

(** X9: an explicit level budget is used as it is, whatever the number of
    rounds, the plaintext base and the lifting: it is the first line
    written and the budget [FindM] is called with. *)
Theorem explicit_budget_used (cfg : Opt.config) (g0 : PRG E) :
  Opt.L cfg <> 0 ->
  exists rest calls',
    printed (final (run E cfg g0)) = OutL (Opt.L cfg) :: rest /\
    trace (final (run E cfg g0)) =
      EvSetSeed (Opt.seed cfg) ::
      EvFindM (Opt.k cfg) (Opt.L cfg) (Opt.c cfg) (Opt.p cfg) (Opt.d cfg)
              (Opt.s cfg) (Opt.chosen_m cfg) :: calls'.
Proof.
  intros HL.
  assert (Hd : derived cfg = Opt.L cfg).
  { unfold derive_L. apply Z.eqb_neq in HL. now rewrite HL. }
  rewrite <- Hd. clear.
  destruct (level_budget_printed cfg g0) as [rest Hrest].
  assert (Hcalls : exists calls',
             trace (final (run E cfg g0)) =
             EvSetSeed (Opt.seed cfg) ::
             EvFindM (Opt.k cfg) (derived cfg) (Opt.c cfg) (Opt.p cfg) (Opt.d cfg)
                     (Opt.s cfg) (Opt.chosen_m cfg) :: calls').
  { clear. execute; read_calls; eexists; reflexivity. }
  destruct Hcalls as [calls' Hcalls].
  exists rest, calls'. split; assumption.
Qed.



(** The two calls of [RandomBnd], with their arguments as computed. *)
Lemma run_bounds (cfg : Opt.config) (g0 : PRG E) (rep : report E) (w : world E) :
  run E cfg g0 = Returned rep w ->
  bounds (trace w) = [shamt_bound (the_nslots rep); rotamt_bound (the_nslots rep)].
Proof.
  execute; intros Hrun; try discriminate Hrun.
  all: injection Hrun as <- <-.
  all: cbv [bounds trace calls rev app flat_map]; reflexivity.
Qed.

Section Correct_engine.

Variable Enc :
  EncryptedArray E -> FHESecKey E -> Ctxt E -> NewPlaintextArray E -> Prop.
Hypothesis Hom : Homomorphic E Enc.

(** X6: on an engine that computes on encrypted data, every feasible run
    finds the four pairs equal and ends with the success message: the two
    sequences of operations of [main] mirror each other, and each result
    ciphertext is a ciphertext of the plaintext result. *)
Theorem correct_engine_succeeds (cfg : Opt.config) (g0 : PRG E) :
  feasible E cfg ->
  exists rep w,
    run E cfg g0 = Returned rep w /\
    verdict rep = true /\
    (exists before, printed w = before ++ [OutCorrect]) /\
    Enc (the_ea rep) (the_secretKey rep) (q0 (results rep)) (q0 (plain rep)) /\
    Enc (the_ea rep) (the_secretKey rep) (q1 (results rep)) (q1 (plain rep)) /\
    Enc (the_ea rep) (the_secretKey rep) (q2 (results rep)) (q2 (plain rep)) /\
    Enc (the_ea rep) (the_secretKey rep) (q3 (results rep)) (q3 (plain rep)).
Proof.
  intros H. destruct Hom.
  execute; try (infeasible H).
  all: repeat match goal with
         | Hq : encrypt E ?ea ?c0 (as_FHEPubKey E ?sk) ?a ?g = (?c, _) |- _ =>
             assert (Enc ea sk c a)
               by (pose proof (hom_encrypt0 ea sk c0 a g) as Hl;
                   rewrite Hq in Hl; exact Hl);
             clear Hq
         end.
  all: try match goal with
         | Hq : equals E ?ea (decrypt E ?ea ?c ?sk ?fresh) ?a = false |- _ =>
             exfalso;
             assert (Ht : equals E ea (decrypt E ea c sk fresh) a = true)
               by (apply hom_decrypt0; auto 20);
             rewrite Ht in Hq; discriminate Hq
         end.
  eexists. eexists. split; [reflexivity|].
  cbn [verdict the_ea the_secretKey results plain q0 q1 q2 q3].
  split; [reflexivity|]. split.
  - read_calls. eexists (_ :: _ :: _ :: _ :: _ :: [_]). reflexivity.
  - repeat split; auto 20.
Qed.

End Correct_engine.

End Runs.

(** ** The level budget *)

Lemma wrap_shift (z k : Z) :
  Long.in_range (z + k * Long.modulus) -> Long.wrap z = z + k * Long.modulus.
Proof.
  intros H. rewrite <- (wrap_small _ H). unfold Long.wrap.
  replace (z + k * Long.modulus - Long.long_min)
    with (z - Long.long_min + k * Long.modulus) by ring.
  now rewrite Z_mod_plus_full.
Qed.

(** Lines 90-94 when [L] is left to the heuristic and the plaintext space
    is larger than bits: [R * addPerRound] levels are added, in [long]
    arithmetic. *)
Lemma derive_L_extra_levels (E : Engine) (R p r : Z) :
  2 < p \/ 1 < r ->
  derive_L E R p r 0 =
  Long.add (Long.add (Long.mul 3 R) 3) (Long.mul R (addPerRound E p r)).
Proof.
  intros H. unfold derive_L. cbn [Z.eqb].
  replace ((2 <? p) || (1 <? r)) with true; [reflexivity|].
  symmetry. apply orb_true_iff.
  destruct H; [left | right]; now apply Z.ltb_lt.
Qed.

(** An explicit [L] is kept. *)
Lemma derive_L_explicit (E : Engine) (R p r L : Z) :
  L <> 0 -> derive_L E R p r L = L.
Proof.
  intros H. unfold derive_L. now apply Z.eqb_neq in H; rewrite H.
Qed.

(** C3, amended: with [L = 0], [p = 2] and [r = 1] the derived budget is
    [3R + 3], without extra levels, for every round count [R >= 1] whose
    [3R + 3] is a [long], and it is the first line the program writes; it
    is 6 for one round. *)
Theorem derived_L_default (E : Engine) (cfg : Opt.config) (g0 : PRG E) :
  Opt.L cfg = 0 -> Opt.p cfg = 2 -> Opt.r cfg = 1 ->
  1 <= Opt.R cfg -> 3 * Opt.R cfg + 3 <= Long.long_max ->
  derive_L E (Opt.R cfg) 2 1 0 = 3 * Opt.R cfg + 3 /\
  (exists rest, printed (final (run E cfg g0)) = OutL (3 * Opt.R cfg + 3) :: rest) /\
  derive_L E 1 2 1 0 = 6.
Proof.
  intros HL Hp Hr H1 H2.
  assert (HR : derive_L E (Opt.R cfg) 2 1 0 = 3 * Opt.R cfg + 3).
  { unfold derive_L. cbn [Z.eqb Z.ltb Z.compare Pos.compare Pos.compare_cont orb].
    unfold Long.add, Long.mul. rewrite long_max_val in H2.
    rewrite (wrap_small (3 * Opt.R cfg)), wrap_small; try reflexivity;
      unfold Long.in_range; rewrite long_min_val, long_max_val; lia. }
  split; [exact HR|]. split; [|reflexivity].
  destruct (level_budget_printed E cfg g0) as [rest Hrest].
  exists rest. rewrite Hrest, HL, Hp, Hr, HR. reflexivity.
Qed.

Lemma derived_L_default_witness :
  derive_L (Toy.engine true) (Opt.R Opt.default) 2 1 0 = 3 * Opt.R Opt.default + 3 /\
  (exists rest,
     printed (final (run (Toy.engine true) Opt.default 0)) =
     OutL (3 * Opt.R Opt.default + 3) :: rest) /\
  derive_L (Toy.engine true) 1 2 1 0 = 6.
Proof.
  apply (derived_L_default (Toy.engine true) Opt.default 0);
    try reflexivity; discriminate.
Defined.

(** C3 as stated fails for the first round count whose [3R + 3] leaves the
    range of [long]. *)
Lemma derived_L_overflows :
  ~ (forall (E : Engine) (R : Z),
       Long.in_range R -> 1 <= R -> derive_L E R 2 1 0 = 3 * R + 3).
Proof.
  intros H.
  specialize (H (Toy.engine true) 3074457345618258602).
  assert (Hr : Long.in_range 3074457345618258602).
  { unfold Long.in_range. rewrite long_min_val, long_max_val. lia. }
  specialize (H Hr ltac:(lia)).
  vm_compute in H. discriminate H.
Qed.

(** Sums may be reduced at every step or at the end. *)
Lemma wrap_add_wrap_l (a b : Z) : Long.wrap (Long.wrap a + b) = Long.wrap (a + b).
Proof.
  unfold Long.wrap.
  replace ((a - Long.long_min) mod Long.modulus + Long.long_min + b - Long.long_min)
    with (a + b - Long.long_min + - ((a - Long.long_min) / Long.modulus) * Long.modulus).
  - now rewrite Z_mod_plus_full.
  - rewrite (Z.mod_eq (a - Long.long_min) Long.modulus) by (rewrite modulus_val; lia).
    ring.
Qed.

Lemma wrap_add_wrap_r (a b : Z) : Long.wrap (a + Long.wrap b) = Long.wrap (a + b).
Proof. now rewrite Z.add_comm, wrap_add_wrap_l, Z.add_comm. Qed.

(** The heuristic budget with extra levels, as one reduction. *)
Lemma derive_L_extra_wrap (E : Engine) (R p r : Z) :
  2 < p \/ 1 < r ->
  derive_L E R p r 0 = Long.wrap (3 * R + 3 + R * addPerRound E p r).
Proof.
  intros H. rewrite derive_L_extra_levels by exact H.
  unfold Long.add, Long.mul.
  rewrite wrap_add_wrap_r, wrap_add_wrap_l, <- Z.add_assoc, wrap_add_wrap_l.
  now rewrite Z.add_assoc.
Qed.

(** When the extra levels are not negative, the budget of
    [3074457345618258602] rounds leaves the range of [long]. *)
Lemma extra_levels_overflow (E : Engine) (p r : Z) :
  2 < p \/ 1 < r -> 0 <= addPerRound E p r ->
  derive_L E 3074457345618258602 p r 0 <>
  3 * 3074457345618258602 + 3 + 3074457345618258602 * addPerRound E p r.
Proof.
  intros H Ha Heq.
  pose proof (wrap_in_range
                (3 * 3074457345618258602 + 3 +
                 3074457345618258602 * addPerRound E p r)) as Hr.
  rewrite <- derive_L_extra_wrap, Heq in Hr by exact H.
  unfold Long.in_range in Hr. rewrite long_min_val, long_max_val in Hr. lia.
Qed.

(** C5, amended: with [L = 0] and [p > 2] or [r > 1] the derived budget is
    [3R + 3 + R * addPerRound] whenever that number is a [long], and it is
    the first line the program writes; [addPerRound] is the value of the
    expression of line 92, computed in binary64 with [log] and [ceil] of
    the platform and converted to [long] by truncation. *)
Theorem derived_L_extra (E : Engine) (cfg : Opt.config) (g0 : PRG E) :
  Opt.L cfg = 0 ->
  2 < Opt.p cfg \/ 1 < Opt.r cfg ->
  Long.in_range
    (3 * Opt.R cfg + 3 + Opt.R cfg * addPerRound E (Opt.p cfg) (Opt.r cfg)) ->
  addPerRound E (Opt.p cfg) (Opt.r cfg) =
    long_of_double
      (PrimFloat.add
         (PrimFloat.div
            (PrimFloat.mul 2%float
               (ceil E (PrimFloat.mul
                          (PrimFloat.mul (log E (double_of_long (Opt.p cfg)))
                                         (double_of_long (Opt.r cfg)))
                          3%float)))
            (PrimFloat.mul (log E 2%float) (double_of_long (FHE_p2Size E))))
         1%float) /\
  derive_L E (Opt.R cfg) (Opt.p cfg) (Opt.r cfg) 0 =
    3 * Opt.R cfg + 3 + Opt.R cfg * addPerRound E (Opt.p cfg) (Opt.r cfg) /\
  exists rest,
    printed (final (run E cfg g0)) =
    OutL (3 * Opt.R cfg + 3 + Opt.R cfg * addPerRound E (Opt.p cfg) (Opt.r cfg))
      :: rest.
Proof.
  intros HL Hp Hr.
  assert (Hd : derive_L E (Opt.R cfg) (Opt.p cfg) (Opt.r cfg) 0 =
               3 * Opt.R cfg + 3 + Opt.R cfg * addPerRound E (Opt.p cfg) (Opt.r cfg)).
  { rewrite derive_L_extra_wrap by exact Hp. now apply wrap_small. }
  split; [reflexivity|]. split; [exact Hd|].
  destruct (level_budget_printed E cfg g0) as [rest Hrest].
  exists rest. rewrite Hrest, HL, Hd. reflexivity.
Qed.

(** One round in base 3 with lifting 2 on the small engine: one extra
    level, the budget is 7. *)
Lemma derived_L_extra_witness :
  addPerRound (Toy.engine true) 3 2 = 1 /\
  derive_L (Toy.engine true) 1 3 2 0 = 7 /\
  exists rest,
    printed (final (run (Toy.engine true) (with_budget 0) 0)) = OutL 7 :: rest.
Proof.
  assert (Ha : addPerRound (Toy.engine true) 3 2 = 1) by (vm_compute; reflexivity).
  destruct (derived_L_extra (Toy.engine true) (with_budget 0) 0 eq_refl)
    as (_ & Hd & rest & Hrest).
  - left. reflexivity.
  - cbn [with_budget Opt.R Opt.p Opt.r]. rewrite Ha.
    unfold Long.in_range. rewrite long_min_val, long_max_val. lia.
  - cbn [with_budget Opt.R Opt.p Opt.r] in Hd, Hrest. rewrite Ha in Hd, Hrest.
    split; [exact Ha|]. split; [exact Hd|]. exists rest. exact Hrest.
Defined.

(** C5 as stated fails for the round count of [derived_L_overflows]: with
    one extra level a round the budget would be [4R + 3], which no [long]
    holds. *)
Lemma derived_L_extra_overflows :
  ~ (forall (E : Engine) (R p r : Z),
       Long.in_range R -> 1 <= R -> 2 < p \/ 1 < r ->
       derive_L E R p r 0 = 3 * R + 3 + R * addPerRound E p r).
Proof.
  intros H.
  assert (Hr : Long.in_range 3074457345618258602).
  { unfold Long.in_range. rewrite long_min_val, long_max_val. lia. }
  assert (Hp : 2 < 3 \/ 1 < 1) by (left; reflexivity).
  apply (extra_levels_overflow (Toy.engine true) 3 1 Hp).
  - assert (Ha : addPerRound (Toy.engine true) 3 1 = 1) by (vm_compute; reflexivity).
    rewrite Ha. lia.
  - apply (H (Toy.engine true) 3074457345618258602 3 1 Hr); [lia | exact Hp].
Qed.

(** ** The random amounts *)

Ltac long_arith :=
  unfold Long.in_range in *;
  rewrite ?long_min_val, ?long_max_val, ?modulus_val in *;
  lia.

(** [n = 2 * (n / 2) + n mod 2], for the linear solver. *)
Ltac halves n :=
  pose proof (Z.div_mod n 2 ltac:(lia));
  pose proof (Z.mod_pos_bound n 2 ltac:(lia)).

Lemma shamt_bound_val (n : Z) :
  1 <= n <= Long.long_max -> shamt_bound n = 2 * (n / 2) + 1.
Proof.
  intros H. halves n. unfold shamt_bound.
  rewrite div2_small by long_arith.
  unfold Long.add, Long.mul.
  rewrite (wrap_small (2 * (n / 2))), wrap_small; try reflexivity; long_arith.
Qed.

Lemma shamt_of_val (n u : Z) :
  1 <= n <= Long.long_max -> 0 <= u < 2 * (n / 2) + 1 -> shamt_of n u = u - n / 2.
Proof.
  intros H Hu. halves n. unfold shamt_of.
  rewrite div2_small by long_arith.
  unfold Long.sub. apply wrap_small. long_arith.
Qed.

(** An intermediate result may be reduced or not. *)
Lemma wrap_sub_wrap (a b : Z) : Long.wrap (Long.wrap a - b) = Long.wrap (a - b).
Proof.
  unfold Long.wrap.
  replace ((a - Long.long_min) mod Long.modulus + Long.long_min - b - Long.long_min)
    with (a - b - Long.long_min + - ((a - Long.long_min) / Long.modulus) * Long.modulus).
  - now rewrite Z_mod_plus_full.
  - rewrite (Z.mod_eq (a - Long.long_min) Long.modulus) by (rewrite modulus_val; lia).
    ring.
Qed.

Lemma rotamt_bound_wrap (n : Z) : rotamt_bound n = Long.wrap (2 * n - 1).
Proof. unfold rotamt_bound, Long.sub, Long.mul. apply wrap_sub_wrap. Qed.

Lemma rotamt_bound_val (n : Z) :
  1 <= n <= 2 ^ 62 -> rotamt_bound n = 2 * n - 1.
Proof.
  intros H. change (2 ^ 62) with 4611686018427387904 in H.
  rewrite rotamt_bound_wrap. apply wrap_small. long_arith.
Qed.

(** Beyond [2^62] slots the argument of [RandomBnd] has wrapped around. *)
Lemma rotamt_bound_wrapped (n : Z) :
  2 ^ 62 < n <= Long.long_max -> rotamt_bound n <= 0.
Proof.
  intros H. change (2 ^ 62) with 4611686018427387904 in H.
  rewrite rotamt_bound_wrap, (wrap_shift _ (-1)) by long_arith.
  long_arith.
Qed.

Lemma rotamt_of_val (n u : Z) :
  1 <= n <= Long.long_max -> 0 <= u < 2 * n - 1 \/ u = 0 ->
  rotamt_of n u = u - (n - 1).
Proof.
  intros H Hu. unfold rotamt_of, Long.sub.
  rewrite (wrap_small (n - 1)), wrap_small; try reflexivity; long_arith.
Qed.

Lemma shamt_in_range (n u : Z) :
  1 <= n <= Long.long_max -> valid_draw (shamt_bound n) u ->
  - (n / 2) <= shamt_of n u <= n / 2.
Proof.
  intros H [Hpos _]. halves n. rewrite shamt_bound_val in Hpos by exact H.
  rewrite shamt_of_val by (try exact H; lia). lia.
Qed.

Lemma rotamt_in_range (n u : Z) :
  1 <= n <= Long.long_max -> valid_draw (rotamt_bound n) u ->
  - (n - 1) <= rotamt_of n u <= n - 1.
Proof.
  intros H [Hpos Hneg].
  destruct (Z_le_gt_dec n (2 ^ 62)) as [Hsmall | Hbig].
  - rewrite rotamt_bound_val in Hpos by (split; [apply H | exact Hsmall]).
    rewrite rotamt_of_val by (try exact H; lia). lia.
  - rewrite (Hneg (rotamt_bound_wrapped n (conj (Z.gt_lt _ _ Hbig) (proj2 H)))).
    rewrite rotamt_of_val by (try exact H; lia). lia.
Qed.

Lemma shamt_uniform (n : Z) :
  1 <= n <= Long.long_max ->
  uniform_on (- (n / 2)) (n / 2) (shamt_bound n) (shamt_of n).
Proof.
  intros H. halves n. rewrite shamt_bound_val by exact H. repeat split.
  - rewrite shamt_of_val by (try exact H; lia). lia.
  - rewrite shamt_of_val by (try exact H; lia). lia.
  - intros t Ht. exists (t + n / 2). split; [lia|].
    rewrite shamt_of_val by (try exact H; lia). lia.
  - intros u u' Hu Hu'. rewrite !shamt_of_val by (try exact H; lia). lia.
Qed.

Lemma rotamt_uniform (n : Z) :
  1 <= n <= 2 ^ 62 ->
  uniform_on (- (n - 1)) (n - 1) (rotamt_bound n) (rotamt_of n).
Proof.
  intros H. rewrite rotamt_bound_val by exact H.
  assert (H' : 1 <= n <= Long.long_max).
  { change (2 ^ 62) with 4611686018427387904 in H. long_arith. }
  repeat split.
  - rewrite rotamt_of_val by (try exact H'; lia). lia.
  - rewrite rotamt_of_val by (try exact H'; lia). lia.
  - intros t Ht. exists (t + (n - 1)). split; [lia|].
    rewrite rotamt_of_val by (try exact H'; lia). lia.
  - intros u u' Hu Hu'. rewrite !rotamt_of_val by (try exact H'; lia). lia.
Qed.

(** ** The small engine *)

Lemma Toy_RandomBnd_ok (sound : bool) : RandomBnd_ok (Toy.engine sound).
Proof.
  intros n g. unfold valid_draw. cbn. unfold Toy.bounded.
  destruct (n <=? 1) eqn:Hn; cbn [fst].
  - apply Z.leb_le in Hn. split; intros; [lia | reflexivity].
  - apply Z.leb_gt in Hn. split; intros; [apply Z.mod_pos_bound | ]; lia.
Qed.

Lemma Toy_feasible (sound : bool) : feasible (Toy.engine sound) Opt.default.
Proof. split; [discriminate | intros g; discriminate]. Qed.

(** The default options with an index chosen on the command line. *)
Definition with_index (m : Z) : Opt.config :=
  {| Opt.gens := []; Opt.ords := []; Opt.seed := 0; Opt.R := 1; Opt.p := 2;
     Opt.r := 1; Opt.d := 1; Opt.c := 2; Opt.k := 80; Opt.L := 0; Opt.s := 0;
     Opt.chosen_m := m |}.

(** ** Claims on the amounts *)

(** C4, amended: in a run whose slot count is at least 1, [RandomBnd] is
    called twice, on the two bounds of the source and one call after the
    other; [shamt] and [rotamt] are made from the two answers, [shamt] lies
    in [[-(nslots/2), nslots/2]] and [rotamt] in [[-(nslots-1), nslots-1]].
    The answers [[0, bound)] are mapped one-to-one onto the interval of
    [shamt], and onto the interval of [rotamt] as long as [nslots <= 2^62],
    so that the amounts are uniform when [RandomBnd] is. *)
Theorem amounts_in_range (E : Engine) (cfg : Opt.config) (g0 : PRG E)
    (rep : report E) (w : world E) :
  RandomBnd_ok E ->
  run E cfg g0 = Returned rep w ->
  1 <= the_nslots rep <= Long.long_max ->
  let n := the_nslots rep in
  exists g u_s g_s u_r g_r,
    bounds (trace w) = [shamt_bound n; rotamt_bound n] /\
    RandomBnd E (shamt_bound n) g = (u_s, g_s) /\
    RandomBnd E (rotamt_bound n) g_s = (u_r, g_r) /\
    the_shamt rep = shamt_of n u_s /\
    the_rotamt rep = rotamt_of n u_r /\
    - (n / 2) <= the_shamt rep <= n / 2 /\
    - (n - 1) <= the_rotamt rep <= n - 1 /\
    0 <= u_s < shamt_bound n /\
    uniform_on (- (n / 2)) (n / 2) (shamt_bound n) (shamt_of n) /\
    (n <= 2 ^ 62 ->
     0 <= u_r < rotamt_bound n /\
     uniform_on (- (n - 1)) (n - 1) (rotamt_bound n) (rotamt_of n)).
Proof.
  intros Hok Hrun Hn n.
  destruct (run_amount_draws E cfg g0 rep w Hrun)
    as (g & u_s & g_s & u_r & g_r & Hs & Hr & Hsh & Hro).
  fold n in Hs, Hr, Hsh, Hro.
  pose proof (Hok (shamt_bound n) g) as Hvs. rewrite Hs in Hvs. cbn [fst] in Hvs.
  pose proof (Hok (rotamt_bound n) g_s) as Hvr. rewrite Hr in Hvr. cbn [fst] in Hvr.
  exists g, u_s, g_s, u_r, g_r.
  split; [exact (run_bounds E cfg g0 rep w Hrun)|].
  split; [exact Hs|]. split; [exact Hr|]. split; [exact Hsh|]. split; [exact Hro|].
  split; [rewrite Hsh; apply shamt_in_range; assumption|].
  split; [rewrite Hro; apply rotamt_in_range; assumption|].
  split.
  - destruct Hvs as [Hpos _]. apply Hpos.
    rewrite shamt_bound_val by exact Hn. halves n. lia.
  - split; [apply shamt_uniform; exact Hn|].
    intros Hsmall.
    assert (Hn2 : 1 <= n <= 2 ^ 62) by (split; [apply Hn | exact Hsmall]).
    split; [|apply rotamt_uniform; exact Hn2].
    destruct Hvr as [Hpos _]. apply Hpos.
    rewrite rotamt_bound_val by exact Hn2. lia.
Qed.

Lemma amounts_in_range_witness :
  match run (Toy.engine true) Opt.default 0 with
  | Returned rep w =>
      the_nslots rep = 4 /\
      bounds (trace w) =
        [shamt_bound (the_nslots rep); rotamt_bound (the_nslots rep)] /\
      - (the_nslots rep / 2) <= the_shamt rep <= the_nslots rep / 2 /\
      - (the_nslots rep - 1) <= the_rotamt rep <= the_nslots rep - 1
  | Aborted _ => False
  end.
Proof.
  assert (Ho : amounts_of (run (Toy.engine true) Opt.default 0) = Some (4, 2, -2))
    by (vm_compute; reflexivity).
  destruct (run (Toy.engine true) Opt.default 0) as [rep w | w] eqn:Hrun;
    cbn [amounts_of] in Ho; [|discriminate Ho].
  injection Ho as Hn _ _.
  split; [exact Hn|].
  destruct (amounts_in_range (Toy.engine true) Opt.default 0 rep w
              (Toy_RandomBnd_ok true) Hrun)
    as (g & u_s & g_s & u_r & g_r & Hb & _ & _ & _ & _ & Hs & Hr & _).
  - rewrite Hn, long_max_val. lia.
  - split; [exact Hb|]. split; [exact Hs | exact Hr].
Defined.

(** C4 as stated fails for a slot count above [2^62]: the argument of
    [RandomBnd] is then negative and one amount only can be drawn. *)
Lemma rotamt_not_uniform :
  ~ (forall n, 1 <= n <= Long.long_max ->
       uniform_on (- (n - 1)) (n - 1) (rotamt_bound n) (rotamt_of n)).
Proof.
  intros H.
  destruct (H 4611686018427387905) as (_ & Hsurj & _).
  - rewrite long_max_val. lia.
  - destruct (Hsurj 0) as (u & Hu & _); [lia|].
    assert (Hb : rotamt_bound 4611686018427387905 = -9223372036854775807)
      by (vm_compute; reflexivity).
    rewrite Hb in Hu. lia.
Qed.

(** C10: the two amounts of a run are made from the answers [u_s] and
    [u_r] of its two calls of [RandomBnd].  With one slot both amounts are
    0.  With an odd slot count the bound [nslots / 2] of the source is
    [(nslots - 1) / 2], [RandomBnd] is asked for a number below [nslots],
    and [shamt] is [u_s - (nslots - 1) / 2]: its magnitude is at most
    [(nslots - 1) / 2], reached when [RandomBnd] answers 0 or
    [nslots - 1]. *)
Theorem amounts_single_and_odd (E : Engine) (cfg : Opt.config) (g0 : PRG E)
    (rep : report E) (w : world E) :
  RandomBnd_ok E ->
  run E cfg g0 = Returned rep w ->
  let n := the_nslots rep in
  exists g u_s g_s u_r g_r,
    bounds (trace w) = [shamt_bound n; rotamt_bound n] /\
    RandomBnd E (shamt_bound n) g = (u_s, g_s) /\
    RandomBnd E (rotamt_bound n) g_s = (u_r, g_r) /\
    the_shamt rep = shamt_of n u_s /\
    the_rotamt rep = rotamt_of n u_r /\
    (n = 1 -> the_shamt rep = 0 /\ the_rotamt rep = 0) /\
    (1 <= n <= Long.long_max -> Z.odd n = true ->
     Long.div n 2 = (n - 1) / 2 /\
     shamt_bound n = n /\
     0 <= u_s < n /\
     the_shamt rep = u_s - (n - 1) / 2 /\
     Z.abs (the_shamt rep) <= (n - 1) / 2 /\
     (u_s = n - 1 -> the_shamt rep = (n - 1) / 2) /\
     (u_s = 0 -> the_shamt rep = - ((n - 1) / 2))).
Proof.
  intros Hok Hrun n.
  destruct (run_amount_draws E cfg g0 rep w Hrun)
    as (g & u_s & g_s & u_r & g_r & Hs & Hr & Hsh & Hro).
  fold n in Hs, Hr, Hsh, Hro.
  pose proof (Hok (shamt_bound n) g) as Hvs. rewrite Hs in Hvs. cbn [fst] in Hvs.
  pose proof (Hok (rotamt_bound n) g_s) as Hvr. rewrite Hr in Hvr. cbn [fst] in Hvr.
  exists g, u_s, g_s, u_r, g_r.
  split; [exact (run_bounds E cfg g0 rep w Hrun)|].
  split; [exact Hs|]. split; [exact Hr|]. split; [exact Hsh|]. split; [exact Hro|].
  split.
  - intros H1.
    assert (Hn : 1 <= n <= Long.long_max) by (rewrite H1, long_max_val; lia).
    pose proof (shamt_in_range n _ Hn Hvs) as Hsr.
    pose proof (rotamt_in_range n _ Hn Hvr) as Hrr.
    rewrite <- Hsh in Hsr. rewrite <- Hro in Hrr. rewrite H1 in Hsr, Hrr.
    change (1 / 2) with 0 in Hsr. lia.
  - intros Hn Hodd.
    assert (Hmod : n mod 2 = 1) by (rewrite Zmod_odd, Hodd; reflexivity).
    halves n.
    assert (Hhalf : n / 2 = (n - 1) / 2).
    { replace (n - 1) with ((n / 2) * 2) by lia. now rewrite Z.div_mul. }
    assert (Hb : shamt_bound n = n) by (rewrite shamt_bound_val by exact Hn; lia).
    assert (Hu : 0 <= u_s < n).
    { destruct Hvs as [Hpos _]. rewrite Hb in Hpos. apply Hpos. lia. }
    assert (Hv : the_shamt rep = u_s - (n - 1) / 2).
    { rewrite Hsh, shamt_of_val by (try exact Hn; lia). lia. }
    split; [rewrite div2_small by long_arith; exact Hhalf|].
    split; [exact Hb|]. split; [exact Hu|]. split; [exact Hv|].
    rewrite <- Hhalf in *. repeat split; lia.
Qed.

(** Three slots on the small engine: [RandomBnd] answers 0 and [shamt] is
    [-1], of magnitude [(3 - 1) / 2]. *)
Lemma amounts_single_and_odd_witness :
  match run (Toy.engine true) (with_index 4) 0 with
  | Returned rep w =>
      the_nslots rep = 3 /\
      the_shamt rep = -1 /\
      Z.abs (the_shamt rep) = (the_nslots rep - 1) / 2 /\
      bounds (trace w) =
        [shamt_bound (the_nslots rep); rotamt_bound (the_nslots rep)]
  | Aborted _ => False
  end.
Proof.
  assert (Ho : amounts_of (run (Toy.engine true) (with_index 4) 0) = Some (3, -1, -1))
    by (vm_compute; reflexivity).
  destruct (run (Toy.engine true) (with_index 4) 0) as [rep w | w] eqn:Hrun;
    cbn [amounts_of] in Ho; [|discriminate Ho].
  injection Ho as Hn Hs _.
  destruct (amounts_single_and_odd (Toy.engine true) (with_index 4) 0 rep w
              (Toy_RandomBnd_ok true) Hrun)
    as (g & u_s & g_s & u_r & g_r & Hb & _ & _ & _ & _ & _ & Hodd).
  destruct Hodd as (_ & _ & _ & _ & Habs & _).
  - rewrite Hn, long_max_val. lia.
  - rewrite Hn. reflexivity.
  - split; [exact Hn|]. split; [exact Hs|]. split; [|exact Hb].
    rewrite Hs, Hn in *. reflexivity.
Defined.

(** One slot on the small engine: both amounts are 0. *)
Example single_slot_run :
  amounts_of (run (Toy.engine true) (with_index 2) 0) = Some (1, 0, 0).
Proof. vm_compute. reflexivity. Qed.

(** ** Runs of the small engine *)

(** The defective engine is reported and the run returns. *)
Lemma verdict_reported_witness :
  verdict_of (run (Toy.engine false) Opt.default 0) = Some false /\
  exists rep w,
    run (Toy.engine false) Opt.default 0 = Returned rep w /\
    verdict rep = all_equal rep /\
    filter is_verdict (printed w) =
      [if all_equal rep then OutCorrect else OutError] /\
    exists before,
      printed w = before ++ [if all_equal rep then OutCorrect else OutError].
Proof.
  split.
  - vm_compute. reflexivity.
  - exact (verdict_reported (Toy.engine false) Opt.default 0 (Toy_feasible false)).
Defined.


(** The text of a run of the sound engine with the default options. *)
Example default_run_output :
  map render (printed (final (run (Toy.engine true) Opt.default 0))) =
  [ "*** L: 6" ++ newline; "m = 5" ++ newline; "security=80" ++ newline;
    "nslot = 4" ++ newline; "shamt = 2" ++ newline; "rotamt = -2" ++ newline;
    "Homomorphic Computation performed correctly." ++ newline ]%string.
Proof. vm_compute. reflexivity. Qed.

(** [const1] is not the same when the two calls of [RandomBnd] return the
    same numbers without advancing the generator. *)
Example const1_follows_amount_draws :
  const1_of (run (Toy.engine_with Toy.bounded true) Opt.default 0) = Some [0; 1; 1; 1] /\
  const1_of (run (Toy.engine_with Toy.frozen true) Opt.default 0) <> Some [0; 1; 1; 1].
Proof.
  split.
  - vm_compute. reflexivity.
  - intros H. vm_compute in H. discriminate H.
Qed.

(** ** The small engine computes on encrypted data *)

Lemma Toy_eqb_list_refl (a : list Z) : Toy.eqb_list a a = true.
Proof.
  induction a as [|x a IH]; [reflexivity|].
  cbn [Toy.eqb_list]. now rewrite Z.eqb_refl, IH.
Qed.

Lemma Toy_Homomorphic : Homomorphic (Toy.engine true) Toy_Enc.
Proof.
  split; unfold Toy_Enc; cbn -[Toy.zip Toy.shift_slots Toy.rotate_slots Toy.eqb_list];
    intros;
    repeat match goal with
      | H : _ /\ _ |- _ => destruct H
      end;
    subst; try (split; reflexivity).
  apply Toy_eqb_list_refl.
Qed.

(** ** Runs of the small engine, continued *)

(** Index 1 is refused by the small engine. *)
Lemma no_index_aborts_witness :
  exists w,
    run (Toy.engine true) (with_index 1) 0 = Aborted w /\
    trace w = [EvSetSeed 0; EvFindM 80 6 2 2 1 0 1] /\
    printed w = [OutL 6].
Proof.
  exact (no_index_aborts (Toy.engine true) (with_index 1) 0 eq_refl).
Defined.

(** There is no polynomial of degree 0. *)
Lemma no_polynomial_aborts_witness :
  exists w,
    run (Toy.engine true) (with_degree 0) 0 = Aborted w /\
    trace w =
      [EvSetSeed 0; EvFindM 80 6 2 2 0 0 0; EvFHEcontext 5 2 1;
       EvBuildModChain 6 2; EvMakeIrredPoly 2 0] /\
    printed w = [OutL 6].
Proof.
  exact (no_polynomial_aborts (Toy.engine true) (with_degree 0) 0 5
           eq_refl (fun g => eq_refl)).
Defined.

Lemma correct_engine_succeeds_witness :
  exists rep w,
    run (Toy.engine true) Opt.default 0 = Returned rep w /\
    verdict rep = true /\
    (exists before, printed w = before ++ [OutCorrect]) /\
    Toy_Enc (the_ea rep) (the_secretKey rep) (q0 (results rep)) (q0 (plain rep)) /\
    Toy_Enc (the_ea rep) (the_secretKey rep) (q1 (results rep)) (q1 (plain rep)) /\
    Toy_Enc (the_ea rep) (the_secretKey rep) (q2 (results rep)) (q2 (plain rep)) /\
    Toy_Enc (the_ea rep) (the_secretKey rep) (q3 (results rep)) (q3 (plain rep)).
Proof.
  exact (correct_engine_succeeds (Toy.engine true) Toy_Enc Toy_Homomorphic
           Opt.default 0 (Toy_feasible true)).
Defined.

(** Base 3 with lifting 2 and the explicit budget 7. *)
Lemma explicit_budget_used_witness :
  exists rest calls',
    printed (final (run (Toy.engine true) (with_budget 7) 0)) = OutL 7 :: rest /\
    trace (final (run (Toy.engine true) (with_budget 7) 0)) =
      EvSetSeed 0 :: EvFindM 80 7 2 3 1 0 0 :: calls'.
Proof.
  apply (explicit_budget_used (Toy.engine true) (with_budget 7) 0).
  discriminate.
Defined.


(** ** The arguments of [RandomBnd] *)

(** X11: in a run with between 1 and [2^62] slots, [RandomBnd] is called
    twice, with the arguments [2 * (nslots / 2) + 1] and [2 * nslots - 1]:
    both are at least 1, so that neither amount falls back on the answer
    [RandomBnd] gives for a bound that is not positive. *)
Theorem random_bounds_positive (E : Engine) (cfg : Opt.config) (g0 : PRG E)
    (rep : report E) (w : world E) :
  run E cfg g0 = Returned rep w ->
  1 <= the_nslots rep <= 2 ^ 62 ->
  bounds (trace w) = [2 * (the_nslots rep / 2) + 1; 2 * the_nslots rep - 1] /\
  1 <= 2 * (the_nslots rep / 2) + 1 /\
  1 <= 2 * the_nslots rep - 1.
Proof.
  intros Hrun Hn.
  assert (Hn' : 1 <= the_nslots rep <= Long.long_max).
  { change (2 ^ 62) with 4611686018427387904 in Hn. long_arith. }
  rewrite (run_bounds E cfg g0 rep w Hrun).
  rewrite shamt_bound_val by exact Hn'.
  rewrite rotamt_bound_val by exact Hn.
  halves (the_nslots rep). repeat split; lia.
Qed.

Lemma random_bounds_positive_witness :
  match run (Toy.engine true) Opt.default 0 with
  | Returned rep w =>
      the_nslots rep = 4 /\
      bounds (trace w) = [2 * (the_nslots rep / 2) + 1; 2 * the_nslots rep - 1]
  | Aborted _ => False
  end.
Proof.
  assert (Ho : amounts_of (run (Toy.engine true) Opt.default 0) = Some (4, 2, -2))
    by (vm_compute; reflexivity).
  destruct (run (Toy.engine true) Opt.default 0) as [rep w | w] eqn:Hrun;
    cbn [amounts_of] in Ho; [|discriminate Ho].
  injection Ho as Hn _ _.
  split; [exact Hn|].
  destruct (random_bounds_positive (Toy.engine true) Opt.default 0 rep w Hrun)
    as (Hb & _).
  - rewrite Hn. change (2 ^ 62) with 4611686018427387904. lia.
  - exact Hb.
Defined.

(** ** Feasible runs of the small engine *)

Lemma both_paths_run_fixed_program_witness :
  exists rep w,
    run (Toy.engine true) Opt.default 0 = Returned rep w /\
    ctxt_ops (trace w) =
      fixed_program (the_shamt rep) (the_rotamt rep) ++ normalisation /\
    ptxt_ops (trace w) = fixed_program (the_shamt rep) (the_rotamt rep) /\
    endgame (trace w) =
      [inl V0; inl V1; inl V2; inl V3; inr V0; inr V1; inr V2; inr V3].
Proof.
  destruct (both_paths_run_fixed_program (Toy.engine true) Opt.default 0
              (Toy_feasible true))
    as (rep & w & Hrun & Hc & Hp & He & _).
  exists rep, w. repeat split; assumption.
Defined.

Lemma secret_key_weight_witness :
  exists rep w,
    run (Toy.engine true) Opt.default 0 = Returned rep w /\
    weights (trace w) = [64].
Proof.
  destruct (secret_key_weight (Toy.engine true) Opt.default 0 (Toy_feasible true))
    as (rep & w & Hrun & Hw & _).
  exists rep, w. split; assumption.
Defined.

Lemma draw_order_witness :
  exists rep w,
    run (Toy.engine true) Opt.default 0 = Returned rep w /\
    draws (trace w) =
      [inl (inl V0); inl (inl V1); inl (inl V2); inl (inl V3);
       inr Shamt; inr Rotamt; inl (inr Const1); inl (inr Const2)].
Proof.
  destruct (draw_order (Toy.engine true) Opt.default 0 (Toy_feasible true))
    as (rep & w & Hrun & Hd & _).
  exists rep, w. split; assumption.
Defined.
